(** * MobileNetV3-Small architecture assembly: a shallow embedding

    This development embeds the architecture-assembly part of
    [templates/mobilenetV3/experiment.py] and states the properties of its
    specification over the embedding.

    Conventions.
    - Python [int] is [Z]; [//] on integers is [Z.div] (both round towards
      minus infinity, the remainder taking the sign of the divisor).
    - Python [float] is modelled by the rational it denotes ([Q]) with exact
      arithmetic: rounding, infinities and NaN are outside the model.  The
      literal [0.9] is [9 # 10].
    - A call that can raise returns a [result]; [Raise] carries the Python
      exception. *)

From Stdlib Require Import ZArith QArith Qround Lia Lqa String List.
From stdpp Require Import gmap strings list.

Open Scope Z_scope.

(** ** Exceptions and the error monad *)

Inductive exn : Type :=
  | ZeroDivisionError
  | IndexError
  | ValueError (msg : string)
  | RuntimeError (msg : string).

Inductive result (A : Type) : Type :=
  | Ok (a : A)
  | Raise (e : exn).

Arguments Ok {A} a.
Arguments Raise {A} e.

Definition rbind {A B : Type} (m : result A) (k : A → result B) : result B :=
  match m with
  | Ok a => k a
  | Raise e => Raise e
  end.

Notation "'let!' x ':=' m 'in' k" := (rbind m (fun x => k))
  (at level 10, x name, m at level 100, k at level 200, only parsing).

Definition is_Ok {A : Type} (m : result A) : Prop := ∃ a, m = Ok a.

(** A list display [[e1, ..., en]] whose elements are calls that may raise:
    evaluated left to right, the first exception aborts the display. *)
Fixpoint sequence {A : Type} (ms : list (result A)) : result (list A) :=
  match ms with
  | [] => Ok []
  | m :: ms' =>
      let! a := m in
      let! l := sequence ms' in
      Ok (a :: l)
  end.

(** A [for] loop that appends one constructed module per element. *)
Fixpoint mapM {A B : Type} (f : A → result B) (l : list A) : result (list B) :=
  match l with
  | [] => Ok []
  | a :: l' =>
      let! b := f a in
      let! bs := mapM f l' in
      Ok (b :: bs)
  end.

(** ** Python primitives *)

Module Py.

(** [int(x)] on a float: truncation towards zero. *)
Definition int (x : Q) : Z := Z.quot (Qnum x) (Z.pos (Qden x)).

(** [a < b] on numbers, as a boolean. *)
Definition lt (a b : Q) : bool :=
  match Qcompare a b with
  | Lt => true
  | _ => false
  end.

(** [a // b] on integers; a zero divisor raises. *)
Definition floordiv (a b : Z) : result Z :=
  if b =? 0 then Raise ZeroDivisionError else Ok (a / b).

(** [l[i]]: a negative index counts from the end; out of range raises. *)
Definition getitem {A : Type} (l : list A) (i : Z) : result A :=
  let n := Z.of_nat (length l) in
  let j := if i <? 0 then i + n else i in
  if (j <? 0) || (n <=? j) then Raise IndexError
  else match l !! Z.to_nat j with
       | Some a => Ok a
       | None => Raise IndexError
       end.

End Py.

(** ** [_make_divisible] (lines 17-27) *)

Definition _make_divisible (v : Q) (divisor : Z) (min_value : option Z) : result Z :=
  let min_value :=
    match min_value with
    | None => divisor
    | Some m => m
    end in
  let! q := Py.floordiv (Py.int (v + inject_Z divisor / 2)) divisor in
  let new_v := Z.max min_value (q * divisor) in
  (* Make sure that rounding down does not go down by more than 10%. *)
  if Py.lt (inject_Z new_v) ((9 # 10) * v)
  then Ok (new_v + divisor)
  else Ok new_v.

(** The quantizer as the specification words it (section 4.1):
    [candidate = max(min_value, floor((v + divisor/2) / divisor) * divisor)];
    if [candidate < 0.9 * v] the result is [candidate + divisor], else
    [candidate]. *)


(** The value [_make_divisible] returns, when it returns. *)

Definition divisible_value (v : Q) (divisor : Z) (min_value : option Z) : Z :=
  match _make_divisible v divisor min_value with
  | Ok r => r
  | Raise _ => 0
  end.

(** ** The layers of the tensor library, as descriptors

    [nn.Conv2d], [nn.BatchNorm2d], [nn.Linear], ... are the library's
    classes; a model holds their constructor arguments.  Only integer kernel
    sizes, strides, paddings and dilations occur in the program.  The
    library's own validation of constructor arguments is not modelled. *)

Module nn.

Record Conv2d : Type := mkConv2d {
  in_channels : Z;
  out_channels : Z;
  kernel_size : Z;
  stride : Z;
  padding : Z;
  dilation : Z;
  groups : Z;
  bias : bool
}.

Record BatchNorm2d : Type := mkBatchNorm2d {
  num_features : Z;
  eps : Q;
  momentum : Q
}.

Record Linear : Type := mkLinear {
  in_features : Z;
  out_features : Z
}.

Record AdaptiveAvgPool2d : Type := mkAdaptiveAvgPool2d {
  output_size : Z
}.

Inductive Activation : Type :=
  | ReLU
  | Hardswish
  | Hardsigmoid.

End nn.

(** ** The tensor substrate

    The program applies its layers to tensors of the library.  What a layer
    does to a tensor is the library's business; the forward passes below are
    written against this interface.  [Shape] further down reads it at the
    level of tensor shapes, and [Dense] gives the layers of the gate their
    values. *)

Module torch.

Class Substrate (T : Type) : Type := {
  conv2d : nn.Conv2d → T → T;
  batch_norm2d : nn.BatchNorm2d → T → T;
  act : nn.Activation → T → T;
  adaptive_avg_pool2d : nn.AdaptiveAvgPool2d → T → T;
  linear : nn.Linear → T → T;
  dropout : Q → T → T;
  flatten : Z → T → T;
  add : T → T → T;
  mul : T → T → T
}.

End torch.

(** ** [SqueezeExcitation.__init__] (lines 30-43) *)

Module SqueezeExcitation.

Record t : Type := mk {
  avgpool : nn.AdaptiveAvgPool2d;
  fc1 : nn.Conv2d;
  fc2 : nn.Conv2d;
  activation : nn.Activation;
  scale_activation : nn.Activation
}.

(** [nn.Conv2d(i, o, 1)]: stride 1, padding 0, dilation 1, one group,
    with bias (the library's defaults). *)
Definition conv1x1 (i o : Z) : nn.Conv2d :=
  nn.mkConv2d i o 1 1 0 1 1 true.

Definition __init__ (input_channels squeeze_channels : Z)
    (activation scale_activation : nn.Activation) : t :=
  {| avgpool := nn.mkAdaptiveAvgPool2d 1;
     fc1 := conv1x1 input_channels squeeze_channels;
     fc2 := conv1x1 squeeze_channels input_channels;
     activation := activation;
     scale_activation := scale_activation |}.

Section Forward.
Context {T : Type} `{torch.Substrate T}.

(** Lines 45-51. *)
Definition _scale (self : t) (input : T) : T :=
  let scale := torch.adaptive_avg_pool2d self.(avgpool) input in
  let scale := torch.conv2d self.(fc1) scale in
  let scale := torch.act self.(activation) scale in
  let scale := torch.conv2d self.(fc2) scale in
  let scale := torch.act self.(scale_activation) scale in
  scale.

(** Lines 53-55. *)
Definition forward (self : t) (input : T) : T :=
  let scale := _scale self input in
  torch.mul input scale.

End Forward.

End SqueezeExcitation.

(** ** [ConvNormActivation.__init__] (lines 58-100) *)

Module ConvNormActivation.

Inductive layer : Type :=
  | Conv (c : nn.Conv2d)
  | Norm (n : nn.BatchNorm2d)
  | Act (a : nn.Activation).

Record t : Type := mk {
  layers : list layer;
  out_channels : Z
}.

Definition __init__ (in_channels out_channels kernel_size stride : Z)
    (padding : option Z) (groups : Z)
    (norm_layer : option (Z → nn.BatchNorm2d))
    (activation_layer : option nn.Activation)
    (dilation : Z) (bias : option bool) : t :=
  let padding :=
    match padding with
    | None => (kernel_size - 1) / 2 * dilation
    | Some p => p
    end in
  let bias :=
    match bias with
    | None => match norm_layer with None => true | Some _ => false end
    | Some b => b
    end in
  let layers :=
    [Conv (nn.mkConv2d in_channels out_channels kernel_size stride padding
             dilation groups bias)] in
  let layers :=
    match norm_layer with
    | Some norm => layers ++ [Norm (norm out_channels)]
    | None => layers
    end in
  let layers :=
    match activation_layer with
    | Some a => layers ++ [Act a]
    | None => layers
    end in
  {| layers := layers; out_channels := out_channels |}.

Section Forward.
Context {T : Type} `{torch.Substrate T}.

Definition apply_layer (l : layer) (x : T) : T :=
  match l with
  | Conv c => torch.conv2d c x
  | Norm n => torch.batch_norm2d n x
  | Act a => torch.act a x
  end.

(** [nn.Sequential.forward]: the layers in order. *)
Definition forward (self : t) (input : T) : T :=
  fold_left (fun x l => apply_layer l x) self.(layers) input.

End Forward.

End ConvNormActivation.

(** ** [InvertedResidualConfig] (lines 103-127) *)

Module InvertedResidualConfig.

Record t : Type := mk {
  input_channels : Z;
  kernel : Z;
  expanded_channels : Z;
  out_channels : Z;
  use_se : bool;
  activation : string;
  stride : Z;
  dilation : Z
}.

Definition adjust_channels (channels : Z) (width_mult : Q) : result Z :=
  _make_divisible (inject_Z channels * width_mult) 8 None.

Definition __init__ (input_channels kernel expanded_channels out_channels : Z)
    (use_se : bool) (activation : string) (stride dilation : Z)
    (width_mult : Q) : result t :=
  let! input_channels' := adjust_channels input_channels width_mult in
  let! expanded_channels' := adjust_channels expanded_channels width_mult in
  let! out_channels' := adjust_channels out_channels width_mult in
  Ok {| input_channels := input_channels';
        kernel := kernel;
        expanded_channels := expanded_channels';
        out_channels := out_channels';
        use_se := use_se;
        activation := activation;
        stride := stride;
        dilation := dilation |}.

End InvertedResidualConfig.

(** ** [InvertedResidual.__init__] (lines 130-196) *)

Module InvertedResidual.

Import InvertedResidualConfig.

Inductive layer : Type :=
  | CNA (c : ConvNormActivation.t)
  | SE (s : SqueezeExcitation.t).

Record t : Type := mk {
  block : list layer;
  use_res_connect : bool;
  out_channels : Z;
  is_strided : bool
}.

(** The default [se_layer]: [partial(SqueezeExcitation,
    scale_activation=nn.Hardsigmoid)]. *)
Definition se_layer (input_channels squeeze_channels : Z)
    (activation : nn.Activation) : SqueezeExcitation.t :=
  SqueezeExcitation.__init__ input_channels squeeze_channels activation
    nn.Hardsigmoid.

Definition __init__ (cnf : InvertedResidualConfig.t)
    (norm_layer : Z → nn.BatchNorm2d) : result t :=
  if negb ((1 <=? cnf.(stride)) && (cnf.(stride) <=? 2))
  then Raise (ValueError "Illegal stride value")
  else
    let use_res_connect :=
      (cnf.(stride) =? 1) &&
      (cnf.(input_channels) =? cnf.(InvertedResidualConfig.out_channels)) in
    let layers : list layer := [] in
    let activation_layer :=
      if String.eqb cnf.(activation) "HS" then nn.Hardswish else nn.ReLU in
    (* Expand phase *)
    let layers :=
      if negb (cnf.(expanded_channels) =? cnf.(input_channels))
      then layers ++
           [CNA (ConvNormActivation.__init__ cnf.(input_channels)
                   cnf.(expanded_channels) 1 1 None 1 (Some norm_layer)
                   (Some activation_layer) 1 None)]
      else layers in
    (* Depthwise convolution *)
    let layers :=
      layers ++
      [CNA (ConvNormActivation.__init__ cnf.(expanded_channels)
              cnf.(expanded_channels) cnf.(kernel) cnf.(stride) None
              cnf.(expanded_channels) (Some norm_layer)
              (Some activation_layer) cnf.(dilation) None)] in
    (* Squeeze-and-Excitation *)
    let! layers :=
      if cnf.(use_se)
      then
        let! squeeze_channels :=
          _make_divisible (inject_Z (cnf.(expanded_channels) / 4)) 8 None in
        Ok (layers ++
            [SE (se_layer cnf.(expanded_channels) squeeze_channels nn.ReLU)])
      else Ok layers in
    (* Project phase *)
    let layers :=
      layers ++
      [CNA (ConvNormActivation.__init__ cnf.(expanded_channels)
              cnf.(InvertedResidualConfig.out_channels) 1 1 None 1
              (Some norm_layer) None 1 None)] in
    Ok {| block := layers;
          use_res_connect := use_res_connect;
          out_channels := cnf.(InvertedResidualConfig.out_channels);
          is_strided := 1 <? cnf.(stride) |}.

Section Forward.
Context {T : Type} `{torch.Substrate T}.

Definition apply_layer (l : layer) (x : T) : T :=
  match l with
  | CNA c => ConvNormActivation.forward c x
  | SE s => SqueezeExcitation.forward s x
  end.

(** [self.block(input)], an [nn.Sequential]. *)
Definition block_forward (self : t) (input : T) : T :=
  fold_left (fun x l => apply_layer l x) self.(block) input.

(** Lines 198-203. *)
Definition forward (self : t) (input : T) : T :=
  let result := block_forward self input in
  if self.(use_res_connect)
  then torch.add input result
  else result.

End Forward.

End InvertedResidual.

(** ** [MobileNetV3Small.__init__] (lines 206-286)

    The weight initialisation of line 286 draws random values and leaves the
    structure untouched; parameter values are modelled apart, in
    [state_dict] below. *)

Module MobileNetV3Small.

Inductive feature : Type :=
  | Stage (c : ConvNormActivation.t)
  | Block (b : InvertedResidual.t).

Inductive head : Type :=
  | Linear (l : nn.Linear)
  | Hardswish
  | Dropout (p : Q).

Record t : Type := mk {
  features : list feature;
  avgpool : nn.AdaptiveAvgPool2d;
  classifier : list head
}.

(** [partial(nn.BatchNorm2d, eps=0.001, momentum=0.01)] *)
Definition default_norm_layer (num_features : Z) : nn.BatchNorm2d :=
  nn.mkBatchNorm2d num_features (1 # 1000) (1 # 100).

(** The local [inverted_residual_setting] of lines 223-242.
    [reduce_divider] is 1 or 2, so its [//] cannot raise and is [Z.div]. *)
Definition inverted_residual_setting (width_mult : Q)
    (reduced_tail dilated : bool) : result (list InvertedResidualConfig.t) :=
  let bneck_conf ic k ec oc se nl s d :=
    InvertedResidualConfig.__init__ ic k ec oc se nl s d width_mult in
  let reduce_divider := if reduced_tail then 2 else 1 in
  let dilation := if dilated then 2 else 1 in
  sequence [
    (* input_c, kernel, exp_c, out_c, se, nl, s, d *)
    bneck_conf 16 3 16 16 true "RE" 2 1;
    bneck_conf 16 3 72 24 false "RE" 2 1;
    bneck_conf 24 3 88 24 false "RE" 1 1;
    bneck_conf 24 5 96 40 true "HS" 2 1;
    bneck_conf 40 5 240 40 true "HS" 1 1;
    bneck_conf 40 5 240 40 true "HS" 1 1;
    bneck_conf 40 5 120 48 true "HS" 1 1;
    bneck_conf 48 5 144 48 true "HS" 1 1;
    bneck_conf 48 5 (288 / reduce_divider) (96 / reduce_divider) true "HS" 2
      dilation;
    bneck_conf (96 / reduce_divider) 5 (576 / reduce_divider)
      (96 / reduce_divider) true "HS" 1 dilation;
    bneck_conf (96 / reduce_divider) 5 (576 / reduce_divider)
      (96 / reduce_divider) true "HS" 1 dilation
  ].

Definition __init__ (num_classes : Z) (width_mult dropout : Q)
    (reduced_tail dilated : bool)
    (norm_layer : option (Z → nn.BatchNorm2d)) : result t :=
  let norm_layer :=
    match norm_layer with
    | None => default_norm_layer
    | Some n => n
    end in
  let layers : list feature := [] in
  let reduce_divider := if reduced_tail then 2 else 1 in
  let! inverted_residual_setting :=
    inverted_residual_setting width_mult reduced_tail dilated in
  let! last_channel :=
    _make_divisible (inject_Z (1024 / reduce_divider) * width_mult) 8 None in
  (* First layer *)
  let! cnf0 := Py.getitem inverted_residual_setting 0 in
  let firstconv_output_channels :=
    cnf0.(InvertedResidualConfig.input_channels) in
  let layers :=
    layers ++
    [Stage (ConvNormActivation.__init__ 3 firstconv_output_channels 3 2 None 1
              (Some norm_layer) (Some nn.Hardswish) 1 None)] in
  (* Building inverted residual blocks *)
  let! blocks :=
    mapM (fun cnf => InvertedResidual.__init__ cnf norm_layer)
      inverted_residual_setting in
  let layers := layers ++ map Block blocks in
  (* Building last several layers *)
  let! cnf_last := Py.getitem inverted_residual_setting (-1) in
  let lastconv_input_channels :=
    cnf_last.(InvertedResidualConfig.out_channels) in
  let! lastconv_output_channels :=
    _make_divisible (576 * width_mult) 8 None in
  let layers :=
    layers ++
    [Stage (ConvNormActivation.__init__ lastconv_input_channels
              lastconv_output_channels 1 1 None 1 (Some norm_layer)
              (Some nn.Hardswish) 1 None)] in
  Ok {| features := layers;
        avgpool := nn.mkAdaptiveAvgPool2d 1;
        classifier :=
          [Linear (nn.mkLinear lastconv_output_channels last_channel);
           Hardswish;
           Dropout dropout;
           Linear (nn.mkLinear last_channel num_classes)] |}.

Section Forward.
Context {T : Type} `{torch.Substrate T}.

Definition apply_feature (f : feature) (x : T) : T :=
  match f with
  | Stage c => ConvNormActivation.forward c x
  | Block b => InvertedResidual.forward b x
  end.

Definition apply_head (h : head) (x : T) : T :=
  match h with
  | Linear l => torch.linear l x
  | Hardswish => torch.act nn.Hardswish x
  | Dropout p => torch.dropout p x
  end.

(** Lines 301-306. *)
Definition forward (self : t) (x : T) : T :=
  let x := fold_left (fun x f => apply_feature f x) self.(features) x in
  let x := torch.adaptive_avg_pool2d self.(avgpool) x in
  let x := torch.flatten 1 x in
  let x := fold_left (fun x h => apply_head h x) self.(classifier) x in
  x.

End Forward.

End MobileNetV3Small.

(** ** Tensor shapes: the substrate read at the level of [Tensor.shape]

    The shape contract of each layer as the library documents it, for
    batched (4-D) images.  A convolution needs the channel dimension to equal
    [in_channels] and a padded input no smaller than the dilated kernel, and
    maps a spatial size [h] to [(h + 2p - d(k-1) - 1) // s + 1];
    normalisation, read with frozen statistics (inference), needs the
    channel dimension to equal [num_features] and keeps the shape, as
    activations and dropout do; [+] and [*] broadcast. *)

Module Shape.

Definition shape : Type := list Z.

Definition conv_out (h k s p d : Z) : Z :=
  (h + 2 * p - d * (k - 1) - 1) / s + 1.

Definition conv2d (c : nn.Conv2d) (x : result shape) : result shape :=
  let! s := x in
  match s with
  | [n; ch; h; w] =>
      let k := c.(nn.kernel_size) in
      let p := c.(nn.padding) in
      let d := c.(nn.dilation) in
      if negb (ch =? c.(nn.in_channels))
      then Raise (RuntimeError "input channels do not match the weight")
      else if c.(nn.stride) <=? 0
      then Raise (RuntimeError "non-positive stride is not supported")
      else if (h + 2 * p <? d * (k - 1) + 1) || (w + 2 * p <? d * (k - 1) + 1)
      then Raise (RuntimeError "kernel size cannot exceed the padded input size")
      else Ok [n; c.(nn.out_channels);
               conv_out h k c.(nn.stride) p d;
               conv_out w k c.(nn.stride) p d]
  | _ => Raise (RuntimeError "expected a 4D input")
  end.

Definition batch_norm2d (b : nn.BatchNorm2d) (x : result shape) : result shape :=
  let! s := x in
  match s with
  | [n; ch; h; w] =>
      if ch =? b.(nn.num_features) then Ok s
      else Raise (RuntimeError "running_mean does not match the channels")
  | _ => Raise (ValueError "expected a 4D input")
  end.

Definition adaptive_avg_pool2d (a : nn.AdaptiveAvgPool2d) (x : result shape)
    : result shape :=
  let! s := x in
  match s with
  | [n; ch; h; w] => Ok [n; ch; a.(nn.output_size); a.(nn.output_size)]
  | _ => Raise (RuntimeError "expected a 4D input")
  end.

Definition linear (l : nn.Linear) (x : result shape) : result shape :=
  let! s := x in
  match reverse s with
  | last :: init =>
      if last =? l.(nn.in_features)
      then Ok (reverse (l.(nn.out_features) :: init))
      else Raise (RuntimeError "shapes cannot be multiplied")
  | [] => Raise (RuntimeError "shapes cannot be multiplied")
  end.

(** [torch.flatten(x, start_dim)] for a non-negative [start_dim]. *)
Definition flatten (start_dim : Z) (x : result shape) : result shape :=
  let! s := x in
  let k := Z.to_nat start_dim in
  if (start_dim <? 0) || (Z.of_nat (length s) <=? start_dim)
  then Raise IndexError
  else Ok (take k s ++ [fold_right Z.mul 1 (drop k s)]).

(** Broadcasting, on the reversed shapes: sizes are matched from the last
    dimension; a missing dimension or a size 1 stretches. *)
Fixpoint broadcast_rev (a b : list Z) : result (list Z) :=
  match a, b with
  | [], _ => Ok b
  | _, [] => Ok a
  | x :: a', y :: b' =>
      let! r := broadcast_rev a' b' in
      if x =? y then Ok (x :: r)
      else if x =? 1 then Ok (y :: r)
      else if y =? 1 then Ok (x :: r)
      else Raise (RuntimeError "sizes do not match at a non-singleton dimension")
  end.

Definition broadcast (x y : result shape) : result shape :=
  let! a := x in
  let! b := y in
  let! r := broadcast_rev (reverse a) (reverse b) in
  Ok (reverse r).

#[global] Instance substrate : torch.Substrate (result shape) := {
  torch.conv2d := conv2d;
  torch.batch_norm2d := batch_norm2d;
  torch.act := fun _ x => x;
  torch.adaptive_avg_pool2d := adaptive_avg_pool2d;
  torch.linear := linear;
  torch.dropout := fun _ x => x;
  torch.flatten := flatten;
  torch.add := broadcast;
  torch.mul := broadcast
}.

End Shape.

(** ** The schedule, evaluated

    [adjusted c wm] is the value of [adjust_channels(c, wm)]; the list below
    is what the display of [inverted_residual_setting] evaluates to
    ([setting_returns] proves it). *)

Definition adjusted (channels : Z) (width_mult : Q) : Z :=
  divisible_value (inject_Z channels * width_mult) 8 None.

Definition row (width_mult : Q) (ic k ec oc : Z) (se : bool) (nl : string)
    (s d : Z) : InvertedResidualConfig.t :=
  InvertedResidualConfig.mk (adjusted ic width_mult) k (adjusted ec width_mult)
    (adjusted oc width_mult) se nl s d.

Definition schedule (width_mult : Q) (reduced_tail dilated : bool)
    : list InvertedResidualConfig.t :=
  let reduce_divider := if reduced_tail then 2 else 1 in
  let dilation := if dilated then 2 else 1 in
  let r := row width_mult in
  [ r 16 3 16 16 true "RE" 2 1;
    r 16 3 72 24 false "RE" 2 1;
    r 24 3 88 24 false "RE" 1 1;
    r 24 5 96 40 true "HS" 2 1;
    r 40 5 240 40 true "HS" 1 1;
    r 40 5 240 40 true "HS" 1 1;
    r 40 5 120 48 true "HS" 1 1;
    r 48 5 144 48 true "HS" 1 1;
    r 48 5 (288 / reduce_divider) (96 / reduce_divider) true "HS" 2 dilation;
    r (96 / reduce_divider) 5 (576 / reduce_divider) (96 / reduce_divider)
      true "HS" 1 dilation;
    r (96 / reduce_divider) 5 (576 / reduce_divider) (96 / reduce_divider)
      true "HS" 1 dilation ].

(** A list of descriptors is chained from [cin] to [cout] when the first
    takes [cin] channels, each one takes what its predecessor puts out, and
    the last puts out [cout]. *)


(** The rows of the schedule all have a stride in {1,2}, a kernel of 3 or 5
    and a dilation of 1 or 2. *)

Definition legal (cnf : InvertedResidualConfig.t) : Prop :=
  (cnf.(InvertedResidualConfig.stride) = 1 ∨
   cnf.(InvertedResidualConfig.stride) = 2) ∧
  (cnf.(InvertedResidualConfig.kernel) = 3 ∨
   cnf.(InvertedResidualConfig.kernel) = 5) ∧
  (cnf.(InvertedResidualConfig.dilation) = 1 ∨
   cnf.(InvertedResidualConfig.dilation) = 2).

(** The schedule at [width_mult = 1.0], [reduced_tail = False],
    [dilated = False], written out. *)

Definition schedule_1 : list InvertedResidualConfig.t :=
  [ InvertedResidualConfig.mk 16 3 16 16 true "RE" 2 1;
    InvertedResidualConfig.mk 16 3 72 24 false "RE" 2 1;
    InvertedResidualConfig.mk 24 3 88 24 false "RE" 1 1;
    InvertedResidualConfig.mk 24 5 96 40 true "HS" 2 1;
    InvertedResidualConfig.mk 40 5 240 40 true "HS" 1 1;
    InvertedResidualConfig.mk 40 5 240 40 true "HS" 1 1;
    InvertedResidualConfig.mk 40 5 120 48 true "HS" 1 1;
    InvertedResidualConfig.mk 48 5 144 48 true "HS" 1 1;
    InvertedResidualConfig.mk 48 5 288 96 true "HS" 2 1;
    InvertedResidualConfig.mk 96 5 576 96 true "HS" 1 1;
    InvertedResidualConfig.mk 96 5 576 96 true "HS" 1 1 ].

(** The [norm_layer] in force: the argument, or the default of line 219. *)

Definition or_default (norm_layer : option (Z → nn.BatchNorm2d))
    : Z → nn.BatchNorm2d :=
  match norm_layer with
  | Some n => n
  | None => MobileNetV3Small.default_norm_layer
  end.

(** A [norm_layer] builds a normalisation over as many channels as it is
    given. *)

Definition good_norm (norm_layer : Z → nn.BatchNorm2d) : Prop :=
  ∀ n, nn.num_features (norm_layer n) = n.

(** A convolution of stride [s] whose padding is [(k-1)/2 * d] maps a
    spatial size [h] to [down s h]. *)


(** The total stride of the feature extractor: the product of the strides of
    its convolutions. *)





(** What the library asks of the arguments of its constructors: [groups]
    positive and dividing both channel counts of a convolution, and a
    dropout probability between 0 and 1.  [network_layers_valid] shows that
    the convolutions of every assembled network comply. *)

Definition conv_valid (c : nn.Conv2d) : Prop :=
  0 < c.(nn.groups) ∧
  (c.(nn.groups) | c.(nn.in_channels)) ∧
  (c.(nn.groups) | c.(nn.out_channels)).

Definition probability (p : Q) : Prop := (0 <= p)%Q ∧ (p <= 1)%Q.

Definition cna_convs (c : ConvNormActivation.t) : list nn.Conv2d :=
  flat_map (fun l => match l with
                     | ConvNormActivation.Conv c => [c]
                     | _ => []
                     end) c.(ConvNormActivation.layers).

Definition block_convs (b : InvertedResidual.t) : list nn.Conv2d :=
  flat_map (fun l => match l with
                     | InvertedResidual.CNA c => cna_convs c
                     | InvertedResidual.SE s =>
                         [s.(SqueezeExcitation.fc1); s.(SqueezeExcitation.fc2)]
                     end) b.(InvertedResidual.block).

Definition network_convs (m : MobileNetV3Small.t) : list nn.Conv2d :=
  flat_map (fun f => match f with
                     | MobileNetV3Small.Stage c => cna_convs c
                     | MobileNetV3Small.Block b => block_convs b
                     end) m.(MobileNetV3Small.features).

(** ** Tensor values: the gate of [SqueezeExcitation] on rational entries

    A batch of images is indexed [[b][c][h][w]].  After the global average
    pool a tensor has shape [[B, C, 1, 1]] and is kept as [[b][c]].  A
    [1x1] convolution owns a weight [[out][in]] and a bias [[out]]; on a
    pooled tensor it is, per sample, the weight applied to the channel
    vector plus the bias.  The mean of an empty plane is left at [0]. *)

Module Dense.

Definition plane : Type := list (list Q).
Definition image : Type := list plane.
Definition batch : Type := list image.
Definition pooled : Type := list (list Q).

Record conv_params : Type := mk_conv_params {
  weight : list (list Q);
  bias : list Q
}.

Record se_params : Type := mk_se_params {
  fc1 : conv_params;
  fc2 : conv_params
}.

Definition sum (l : list Q) : Q := fold_right Qplus 0%Q l.

Definition mean (p : plane) : Q :=
  (sum (concat p) / inject_Z (Z.of_nat (length (concat p))))%Q.

Definition adaptive_avg_pool2d_1 (x : batch) : pooled :=
  map (map mean) x.

Definition dot (a b : list Q) : Q := sum (zip_with Qmult a b).

(** The weight applied to one channel vector, plus the bias. *)
Definition lin (p : conv_params) (v : list Q) : list Q :=
  zip_with (fun row b => (dot row v + b)%Q) p.(weight) p.(bias).

Definition conv2d_1x1 (c : nn.Conv2d) (p : conv_params) (x : pooled)
    : result pooled :=
  mapM (fun v =>
          if Z.of_nat (length v) =? c.(nn.in_channels)
          then Ok (lin p v)
          else Raise (RuntimeError "input channels do not match the weight"))
       x.

Definition relu (x : Q) : Q := if Py.lt x 0 then 0%Q else x.

(** [0] up to [-3], [1] from [3] on, [x/6 + 1/2] in between. *)
Definition hardsigmoid (x : Q) : Q :=
  if Qle_bool x (-3) then 0%Q
  else if Qle_bool 3 x then 1%Q
  else (x / 6 + 1 / 2)%Q.

Definition hardswish (x : Q) : Q := (x * hardsigmoid x)%Q.

Definition act (a : nn.Activation) (x : Q) : Q :=
  match a with
  | nn.ReLU => relu x
  | nn.Hardswish => hardswish x
  | nn.Hardsigmoid => hardsigmoid x
  end.

(** Lines 45-51. *)
Definition _scale (self : SqueezeExcitation.t) (p : se_params) (input : batch)
    : result pooled :=
  let scale := adaptive_avg_pool2d_1 input in
  let! scale := conv2d_1x1 self.(SqueezeExcitation.fc1) p.(fc1) scale in
  let scale := map (map (act self.(SqueezeExcitation.activation))) scale in
  let! scale := conv2d_1x1 self.(SqueezeExcitation.fc2) p.(fc2) scale in
  let scale := map (map (act self.(SqueezeExcitation.scale_activation))) scale in
  Ok scale.

(** [input * scale] for [input] of shape [[B, C, H, W]] and [scale] of shape
    [[B, C, 1, 1]]: every entry of channel [c] of sample [b] is multiplied
    by [scale[b][c]]. *)
Definition mul_pure (img : image) (sc : list Q) : image :=
  zip_with (fun pl s => map (map (fun x => (x * s)%Q)) pl) img sc.

Definition mul_image (img : image) (sc : list Q) : result image :=
  if Nat.eqb (length img) (length sc)
  then Ok (mul_pure img sc)
  else Raise (RuntimeError "sizes do not match at a non-singleton dimension").

Definition mul (input : batch) (scale : pooled) : result batch :=
  if Nat.eqb (length input) (length scale)
  then sequence (zip_with mul_image input scale)
  else Raise (RuntimeError "sizes do not match at a non-singleton dimension").

(** Lines 53-55. *)
Definition forward (self : SqueezeExcitation.t) (p : se_params) (input : batch)
    : result batch :=
  let! scale := _scale self p input in
  mul input scale.





End Dense.

(** ** [mobilenet_v3_small] (lines 309-334)

    A model is its structure together with its [state_dict]: the flat map
    from the names of its parameters and buffers to their tensors.  The
    values a fresh model holds are drawn at random by
    [_initialize_weights]; they are an argument here, as is the
    [state_dict] of the pretrained model the library supplies.
    [print] is not modelled. *)

Record tensor : Type := mk_tensor {
  tensor_shape : list Z;
  tensor_data : list Q
}.

Record Model : Type := mk_Model {
  arch : MobileNetV3Small.t;
  state_dict : gmap string tensor
}.

(** The keyword arguments of [MobileNetV3Small]; [None] is an absent key. *)
Record Kwargs : Type := mk_Kwargs {
  kw_num_classes : option Z;
  kw_width_mult : option Q;
  kw_dropout : option Q;
  kw_reduced_tail : option bool;
  kw_dilated : option bool;
  kw_norm_layer : option (Z → nn.BatchNorm2d)
}.

(** [kwargs.get(key, default)] *)
Definition get {A : Type} (o : option A) (default : A) : A :=
  match o with
  | Some a => a
  | None => default
  end.

(** [k.startswith('classifier')] *)
Definition startswith_classifier (k : string) : bool :=
  String.prefix "classifier" k.

(** [{k: v for k, v in sd.items() if not k.startswith('classifier')}] *)
Definition remove_classifier (sd : gmap string tensor) : gmap string tensor :=
  filter (fun kv => startswith_classifier kv.1 = false) sd.

(** [model.load_state_dict(sd)], strict: the names of [sd] must be exactly
    the names of the model and every tensor must have the shape of the
    tensor it replaces; the model then holds the values of [sd]. *)
Definition load_state_dict (model : Model) (sd : gmap string tensor)
    : result Model :=
  if decide (dom sd = dom model.(state_dict))
  then
    if decide (map_Forall
                 (fun k t => tensor_shape <$> model.(state_dict) !! k =
                             Some (tensor_shape t)) sd)
    then Ok {| arch := model.(arch); state_dict := sd |}
    else Raise (RuntimeError "size mismatch")
  else Raise (RuntimeError "Missing or unexpected key(s) in state_dict").

Definition mobilenet_v3_small (pretrained : bool) (kwargs : Kwargs)
    (fresh pretrained_model : gmap string tensor) : result Model :=
  let! a :=
    MobileNetV3Small.__init__
      (get kwargs.(kw_num_classes) 1000) (get kwargs.(kw_width_mult) 1%Q)
      (get kwargs.(kw_dropout) (2 # 10)) (get kwargs.(kw_reduced_tail) false)
      (get kwargs.(kw_dilated) false) kwargs.(kw_norm_layer) in
  let model := {| arch := a; state_dict := fresh |} in
  if pretrained
  then
    (* Check for number of classes *)
    if negb (get kwargs.(kw_num_classes) 1000 =? 1000)
    then
      (* We cannot load the classifier weights (different classes) *)
      let pretrained_state_dict := pretrained_model in
      (* Remove classifier weights *)
      let pretrained_state_dict := remove_classifier pretrained_state_dict in
      let model_dict := model.(state_dict) in
      (* Update the model dict *)
      let model_dict := pretrained_state_dict ∪ model_dict in
      load_state_dict model model_dict
    else
      (* Load all weights *)
      load_state_dict model pretrained_model
  else Ok model.

(** ** Names used by the further properties *)

(** The squeeze-and-excitation gates among the layers of a block. *)
Definition block_gates (b : InvertedResidual.t) : list SqueezeExcitation.t :=
  flat_map (fun l => match l with
                     | InvertedResidual.SE s => [s]
                     | InvertedResidual.CNA _ => []
                     end) b.(InvertedResidual.block).

(** The two errors of the shape rule of a convolution met below. *)
Definition channel_error : exn :=
  RuntimeError "input channels do not match the weight".

Definition kernel_error : exn :=
  RuntimeError "kernel size cannot exceed the padded input size".

(** A channel count that is a multiple of 8 and not below 8. *)
Definition aligned (z : Z) : Prop := 8 ≤ z ∧ (8 | z).

(** The two errors of a strict [load_state_dict]. *)
Definition key_error : exn :=
  RuntimeError "Missing or unexpected key(s) in state_dict".


(** The network [MobileNetV3Small] builds from the keyword arguments. *)
Definition build (kwargs : Kwargs) : result MobileNetV3Small.t :=
  MobileNetV3Small.__init__
    (get kwargs.(kw_num_classes) 1000) (get kwargs.(kw_width_mult) 1%Q)
    (get kwargs.(kw_dropout) (2 # 10)) (get kwargs.(kw_reduced_tail) false)
    (get kwargs.(kw_dilated) false) kwargs.(kw_norm_layer).

(** Every tensor of [sd] has the shape of the tensor of that name in [ref]. *)
Definition shapes_fit (sd ref : gmap string tensor) : Prop :=
  ∀ k t t', sd !! k = Some t → ref !! k = Some t' →
            tensor_shape t' = tensor_shape t.

(** ** The training run (lines 337-479) *)

(** [a / b] with a float operand; a zero divisor raises. *)
Definition truediv (a b : Q) : result Q :=
  if Qeq_bool b 0 then Raise ZeroDivisionError else Ok (a / b)%Q.

(** [a % b] on integers; a zero divisor raises.  The remainder takes the sign
    of the divisor, as [Z.modulo] does. *)
Definition mod_ (a b : Z) : result Z :=
  if b =? 0 then Raise ZeroDivisionError else Ok (a mod b).

(** [Config] (lines 337-358). *)
Module Config.

Record t : Type := mk {
  data_path : string;
  num_classes : Z;
  model : string;
  batch_size : Z;
  learning_rate : Q;
  weight_decay : Q;
  epochs : Z;
  device : string;
  num_workers : Z;
  log_interval : Z;
  eval_interval : Z;
  out_dir : string;
  compile_model : bool
}.

End Config.

(** What the run takes from PyTorch and from the data set, kept abstract:
    the numbers a forward pass yields, one optimisation step, the learning
    rate schedule and the batches the two loaders of [get_cifar10_loaders]
    yield.  The test loader is not shuffled and its transform is
    deterministic, so every pass over it yields the same batches; the n-th
    pass over the training loader has batches of its own. *)
Class Backend : Type := {
  inputs : Type;
  targets : Type;
  outputs : Type;
  optimizer : Type;
  (** [model(inputs)] after [model.eval()], under [torch.no_grad()] *)
  eval_call : Model → inputs → outputs;
  (** [criterion(outputs, targets).item()] *)
  criterion : outputs → targets → Q;
  (** [targets.size(0)] *)
  size0 : targets → Z;
  (** [predicted.eq(targets).sum().item()] with
      [_, predicted = outputs.max(1)] *)
  correct : outputs → targets → Z;
  (** lines 407-411: [zero_grad], the forward pass in training mode,
      [backward] and [optimizer.step()]; the modules stay, the state_dict and
      the optimizer change *)
  sgd_step : Model → optimizer → inputs → targets →
             gmap string tensor * optimizer * outputs;
  (** [optim.SGD] with its [CosineAnnealingLR] scheduler *)
  SGD : Model → Q → Q → Z → optimizer;
  scheduler_step : optimizer → optimizer;
  (** [optimizer.param_groups[0]['lr']] *)
  lr : optimizer → Q;
  train_loader : Config.t → nat → list (inputs * targets);
  test_loader : Config.t → list (inputs * targets)
}.

Record train_entry : Type := mk_train_entry {
  te_epoch : Z;
  te_batch : Z;
  te_loss : Q;
  te_acc : Q;
  te_lr : Q
}.

Record val_entry : Type := mk_val_entry {
  ve_epoch : Z;
  ve_loss : Q;
  ve_acc : Q
}.

(** The loop of [evaluate] (lines 453-461). *)
Fixpoint evaluate_loop `{Backend} (model : Model)
    (dataloader : list (inputs * targets))
    (val_loss : Q) (val_correct val_total : Z) : Q * Z * Z :=
  match dataloader with
  | [] => (val_loss, val_correct, val_total)
  | (inputs, targets) :: dataloader =>
      let outputs := eval_call model inputs in
      let loss := criterion outputs targets in
      let val_loss := (val_loss + loss)%Q in
      let val_total := val_total + size0 targets in
      let val_correct := val_correct + correct outputs targets in
      evaluate_loop model dataloader val_loss val_correct val_total
  end.

(** [evaluate] (lines 446-466). *)
Definition evaluate `{Backend} (model : Model)
    (dataloader : list (inputs * targets)) : result (Q * Q) :=
  let '(val_loss, val_correct, val_total) :=
    evaluate_loop model dataloader 0%Q 0 0 in
  let! val_loss :=
    truediv val_loss (inject_Z (Z.of_nat (length dataloader))) in
  let! val_acc :=
    truediv (100 * inject_Z val_correct)%Q (inject_Z val_total) in
  Ok (val_loss, val_acc).

(** The inner loop of [train] (lines 404-428), from batch [batch_idx] on. *)
Fixpoint train_batches `{Backend} (config : Config.t)
    (a : MobileNetV3Small.t) (epoch : Z)
    (batches : list (inputs * targets)) (batch_idx : Z)
    (sd : gmap string tensor) (opt : optimizer)
    (train_loss : Q) (train_correct train_total : Z)
    (train_log_info : list train_entry)
    : result (gmap string tensor * optimizer * list train_entry) :=
  match batches with
  | [] => Ok (sd, opt, train_log_info)
  | (inputs, targets) :: batches =>
      let '(sd, opt, outputs) :=
        sgd_step {| arch := a; state_dict := sd |} opt inputs targets in
      let loss := criterion outputs targets in
      let train_loss := (train_loss + loss)%Q in
      let train_total := train_total + size0 targets in
      let train_correct := train_correct + correct outputs targets in
      let! r := mod_ batch_idx config.(Config.log_interval) in
      let! train_log_info :=
        if r =? 0
        then
          let loss := (train_loss / inject_Z (batch_idx + 1))%Q in
          let! acc :=
            truediv (100 * inject_Z train_correct)%Q (inject_Z train_total) in
          Ok (train_log_info ++
              [mk_train_entry epoch batch_idx loss acc (lr opt)])
        else Ok train_log_info in
      train_batches config a epoch batches (batch_idx + 1) sd opt
        train_loss train_correct train_total train_log_info
  end.

(** The epoch loop of [train] (lines 398-442); [ckpt] is the content of
    [best_model.pth], [None] while the file does not exist. *)
Fixpoint train_epochs `{Backend} (config : Config.t)
    (a : MobileNetV3Small.t) (epochs : list nat)
    (sd : gmap string tensor) (opt : optimizer) (best_acc : Q)
    (train_log_info : list train_entry) (val_log_info : list val_entry)
    (ckpt : option (gmap string tensor))
    : result (list train_entry * list val_entry * Q *
              option (gmap string tensor)) :=
  match epochs with
  | [] => Ok (train_log_info, val_log_info, best_acc, ckpt)
  | epoch :: epochs =>
      let! trained :=
        train_batches config a (Z.of_nat epoch) (train_loader config epoch) 0
          sd opt 0%Q 0 0 train_log_info in
      let '(sd, opt, train_log_info) := trained in
      let! validated :=
        evaluate {| arch := a; state_dict := sd |} (test_loader config) in
      let '(val_loss, val_acc) := validated in
      let val_log_info :=
        val_log_info ++ [mk_val_entry (Z.of_nat epoch) val_loss val_acc] in
      let '(best_acc, ckpt) :=
        if Py.lt best_acc val_acc
        then (val_acc, Some sd)
        else (best_acc, ckpt) in
      let opt := scheduler_step opt in
      train_epochs config a epochs sd opt best_acc train_log_info
        val_log_info ckpt
  end.

(** [train] (lines 381-444).  [fresh] is the state_dict of the model as
    initialised; the result carries the returned triple and the content of
    [best_model.pth] after the run.  Moving to a device, [torch.compile] and
    [print] leave what is computed and are left out. *)
Definition train `{Backend} (config : Config.t) (fresh : gmap string tensor)
    (ckpt : option (gmap string tensor))
    : result (list train_entry * list val_entry * Q *
              option (gmap string tensor)) :=
  let! model :=
    mobilenet_v3_small false
      (mk_Kwargs (Some config.(Config.num_classes)) None None None None None)
      fresh ∅ in
  let optimizer :=
    SGD model config.(Config.learning_rate) config.(Config.weight_decay)
      config.(Config.epochs) in
  train_epochs config model.(arch)
    (seq 0 (Z.to_nat config.(Config.epochs)))
    model.(state_dict) optimizer 0%Q [] [] ckpt.

(** [test] (lines 468-479).  [fresh] is the state_dict of the model as
    initialised, [best_model] what [torch.load] reads from [best_model.pth];
    a missing file is outside the model. *)
Definition test `{Backend} (config : Config.t) (fresh : gmap string tensor)
    (best_model : gmap string tensor) : result (Q * Q) :=
  let! a :=
    MobileNetV3Small.__init__ config.(Config.num_classes) 1%Q (2 # 10)
      false false None in
  let model := {| arch := a; state_dict := fresh |} in
  let! model := load_state_dict model best_model in
  evaluate model (test_loader config).

(** The sums [evaluate] accumulates. *)
Definition batch_losses `{Backend} (model : Model)
    (dataloader : list (inputs * targets)) : list Q :=
  map (fun b => criterion (eval_call model b.1) b.2) dataloader.

Definition batch_hits `{Backend} (model : Model)
    (dataloader : list (inputs * targets)) : list Z :=
  map (fun b => correct (eval_call model b.1) b.2) dataloader.

Definition batch_sizes `{Backend} (dataloader : list (inputs * targets))
    : list Z :=
  map (fun b => size0 b.2) dataloader.

Definition Zsum (l : list Z) : Z := fold_right Z.add 0 l.

(** [sd] has the names of [ref] and tensors of the same shapes. *)
Definition same_layout (sd ref : gmap string tensor) : Prop :=
  dom sd = dom ref ∧ shapes_fit sd ref.

(** The accuracy of a result of [evaluate]. *)
Definition accuracy {A B : Type} (r : result (A * B)) : result B :=
  let! p := r in Ok p.2.

(** A small backend on which the run can be evaluated: inputs and targets are
    class numbers, the model predicts its input, a step leaves the weights
    and every batch holds one sample. *)
Definition identity_backend : Backend := {|
  inputs := Z;
  targets := Z;
  outputs := Z;
  optimizer := Q;
  eval_call := fun _ x => x;
  criterion := fun o t => if o =? t then 0%Q else 1%Q;
  size0 := fun _ => 1;
  correct := fun o t => if o =? t then 1 else 0;
  sgd_step := fun model opt x _ => (state_dict model, opt, x);
  SGD := fun _ lr _ _ => lr;
  scheduler_step := fun opt => (opt / 2)%Q;
  lr := fun opt => opt;
  train_loader := fun _ _ => [(1, 1); (2, 3)];
  test_loader := fun _ => [(0, 0); (1, 2)]
|}.

(** [Config()] where CUDA is not available: the defaults of the dataclass. *)
Definition default_config : Config.t :=
  Config.mk "./data" 10 "mobilenet_v3_small" 128 (1 # 100) (1 # 10000) 2
    "cpu" 2 100 1000 "run_0" false.

(* ================================================================== *)
(** * Properties *)
(* ================================================================== *)

(** ** The channel quantizer *)

Section Quantizer.

Lemma int_nonneg_floor (x : Q) : (0 <= x)%Q → Py.int x = Qfloor x.
Proof.
  destruct x as [n m]; unfold Py.int, Qfloor, Qle; simpl.
  intros Hn. apply Z.quot_div_nonneg; lia.
Qed.


Lemma lt_iff (a b : Q) : Py.lt a b = true ↔ (a < b)%Q.
Proof.
  unfold Py.lt. rewrite Qlt_alt. destruct (a ?= b)%Q; split; congruence.
Qed.


Lemma int_neg_floor (x : Q) : (x <= 0)%Q → Py.int x = - Qfloor (- x).
Proof.
  intros Hx. rewrite <- int_nonneg_floor by lra.
  destruct x as [n m]. unfold Py.int. cbn [Qnum Qden Qopp].
  rewrite Z.quot_opp_l by lia. lia.
Qed.





(** The literal checks of the specification. *)
Example make_divisible_16 : _make_divisible 16 8 None = Ok 16.
Proof. reflexivity. Qed.

Example make_divisible_72 : _make_divisible 72 8 None = Ok 72.
Proof. reflexivity. Qed.

Example make_divisible_18 : _make_divisible 18 8 None = Ok 24.
Proof. reflexivity. Qed.

Example make_divisible_zero_divisor :
  _make_divisible 18 0 None = Raise ZeroDivisionError.
Proof. reflexivity. Qed.

Lemma make_divisible_returns (v : Q) (d : Z) (m : option Z) :
  d ≠ 0 → _make_divisible v d m = Ok (divisible_value v d m).
Proof.
  intros Hd. unfold divisible_value, _make_divisible, Py.floordiv.
  destruct (Z.eqb_spec d 0) as [E|_]; [contradiction|]. cbn [rbind].
  destruct (Py.lt _ _); reflexivity.
Qed.

Lemma divisible_value_min (v : Q) (d : Z) :
  0 < d → d ≤ divisible_value v d None.
Proof.
  intros Hd. unfold divisible_value, _make_divisible, Py.floordiv.
  destruct (Z.eqb_spec d 0) as [E|_]; [lia|]. cbn [rbind].
  destruct (Py.lt _ _); lia.
Qed.

Lemma divisible_value_multiple (v : Q) (d : Z) :
  0 < d → (d | divisible_value v d None).
Proof.
  intros Hd. unfold divisible_value, _make_divisible, Py.floordiv.
  destruct (Z.eqb_spec d 0) as [E|_]; [lia|]. cbn [rbind].
  set (q := Py.int _ / d).
  assert (Hc : (d | Z.max d (q * d))).
  { destruct (Z.max_spec d (q * d)) as [[_ ->]|[_ ->]];
      [apply Z.divide_factor_r | apply Z.divide_refl]. }
  destruct (Py.lt _ _); [apply Z.divide_add_r; [exact Hc|apply Z.divide_refl]|exact Hc].
Qed.





End Quantizer.

(** ** Block descriptors and inverted-residual blocks *)

Section Blocks.

Import InvertedResidualConfig.

Lemma adjust_channels_returns (c : Z) (wm : Q) :
  adjust_channels c wm = Ok (divisible_value (inject_Z c * wm) 8 None).
Proof. apply make_divisible_returns. discriminate. Qed.

Lemma config_init_returns ic k ec oc se nl s d wm :
  InvertedResidualConfig.__init__ ic k ec oc se nl s d wm =
  Ok {| input_channels := divisible_value (inject_Z ic * wm) 8 None;
        kernel := k;
        expanded_channels := divisible_value (inject_Z ec * wm) 8 None;
        out_channels := divisible_value (inject_Z oc * wm) 8 None;
        use_se := se;
        activation := nl;
        stride := s;
        dilation := d |}.
Proof.
  unfold InvertedResidualConfig.__init__.
  rewrite !adjust_channels_returns. reflexivity.
Qed.

Lemma block_init_illegal_stride cnf norm_layer :
  ¬ (cnf.(stride) = 1 ∨ cnf.(stride) = 2) →
  InvertedResidual.__init__ cnf norm_layer =
  Raise (ValueError "Illegal stride value").
Proof.
  intros Hs. unfold InvertedResidual.__init__.
  destruct (Z.leb_spec 1 cnf.(stride)), (Z.leb_spec cnf.(stride) 2);
    cbn [andb negb]; try reflexivity.
  exfalso. apply Hs. lia.
Qed.

Lemma block_init_legal_stride cnf norm_layer :
  cnf.(stride) = 1 ∨ cnf.(stride) = 2 →
  ∃ b, InvertedResidual.__init__ cnf norm_layer = Ok b ∧
       InvertedResidual.use_res_connect b =
         (cnf.(stride) =? 1) && (cnf.(input_channels) =? cnf.(out_channels)).
Proof.
  intros Hs. unfold InvertedResidual.__init__.
  replace (negb ((1 <=? cnf.(stride)) && (cnf.(stride) <=? 2))) with false
    by (destruct Hs as [-> | ->]; reflexivity).
  rewrite make_divisible_returns by discriminate.
  destruct cnf.(use_se); cbn [rbind]; eexists; split; reflexivity.
Qed.

Lemma block_init_inv cnf norm_layer b :
  InvertedResidual.__init__ cnf norm_layer = Ok b →
  (cnf.(stride) = 1 ∨ cnf.(stride) = 2) ∧
  InvertedResidual.use_res_connect b =
    (cnf.(stride) =? 1) && (cnf.(input_channels) =? cnf.(out_channels)).
Proof.
  intros Hb.
  assert (Hs : cnf.(stride) = 1 ∨ cnf.(stride) = 2).
  { destruct (Z.eq_dec cnf.(stride) 1) as [|n1]; [now left|].
    destruct (Z.eq_dec cnf.(stride) 2) as [|n2]; [now right|].
    rewrite block_init_illegal_stride in Hb by (intros [|]; contradiction).
    discriminate Hb. }
  split; [exact Hs|].
  destruct (block_init_legal_stride cnf norm_layer Hs) as (b' & Hb' & Hflag).
  congruence.
Qed.




(** C6. Building a block raises the invalid-stride error exactly when the
    descriptor's stride is outside {1,2}; for a stride in {1,2} the
    construction does not raise it. *)
Theorem block_init_raises_iff_illegal_stride cnf norm_layer :
  (InvertedResidual.__init__ cnf norm_layer =
     Raise (ValueError "Illegal stride value")
   ↔ ¬ (cnf.(stride) = 1 ∨ cnf.(stride) = 2)) ∧
  (cnf.(stride) = 1 ∨ cnf.(stride) = 2 →
   InvertedResidual.__init__ cnf norm_layer ≠
     Raise (ValueError "Illegal stride value")).
Proof.
  assert (Hok : cnf.(stride) = 1 ∨ cnf.(stride) = 2 →
                InvertedResidual.__init__ cnf norm_layer ≠
                  Raise (ValueError "Illegal stride value")).
  { intros Hs Hr.
    destruct (block_init_legal_stride cnf norm_layer Hs) as (b & Hb & _).
    congruence. }
  split; [split|exact Hok].
  - intros Hr Hs. exact (Hok Hs Hr).
  - apply block_init_illegal_stride.
Qed.

Example block_init_stride_3 :
  InvertedResidual.__init__ (InvertedResidualConfig.mk 16 3 16 16 true "RE" 3 1)
    MobileNetV3Small.default_norm_layer =
  Raise (ValueError "Illegal stride value").
Proof. reflexivity. Qed.

Example block_init_stride_0 :
  InvertedResidual.__init__ (InvertedResidualConfig.mk 16 3 16 16 true "RE" 0 1)
    MobileNetV3Small.default_norm_layer =
  Raise (ValueError "Illegal stride value").
Proof. reflexivity. Qed.

Example block_init_stride_2 :
  is_Ok (InvertedResidual.__init__
           (InvertedResidualConfig.mk 16 3 16 16 true "RE" 2 1)
           MobileNetV3Small.default_norm_layer).
Proof. eexists. reflexivity. Qed.

(** C4. For a block built from a descriptor, the shortcut flag holds exactly
    when the stride is 1 and the input and output channel counts agree; the
    forward pass returns the input added to the result of the composed
    stages when the flag holds, and the result of the composed stages alone
    when it does not; a block of stride 2 has no shortcut. *)
Theorem block_shortcut_iff cnf norm_layer b :
  InvertedResidual.__init__ cnf norm_layer = Ok b →
  (InvertedResidual.use_res_connect b = true
   ↔ cnf.(stride) = 1 ∧ cnf.(input_channels) = cnf.(out_channels)) ∧
  (InvertedResidual.use_res_connect b = true →
   ∀ (T : Type) (S : torch.Substrate T) (input : T),
     InvertedResidual.forward b input =
     torch.add input (InvertedResidual.block_forward b input)) ∧
  (InvertedResidual.use_res_connect b = false →
   ∀ (T : Type) (S : torch.Substrate T) (input : T),
     InvertedResidual.forward b input =
     InvertedResidual.block_forward b input) ∧
  (cnf.(stride) = 2 → InvertedResidual.use_res_connect b = false).
Proof.
  intros Hb.
  assert (Hs : cnf.(stride) = 1 ∨ cnf.(stride) = 2).
  { destruct (Z.eq_dec cnf.(stride) 1) as [|n1]; [now left|].
    destruct (Z.eq_dec cnf.(stride) 2) as [|n2]; [now right|].
    rewrite block_init_illegal_stride in Hb by (intros [|]; contradiction).
    discriminate Hb. }
  destruct (block_init_legal_stride cnf norm_layer Hs) as (b' & Hb' & Hflag).
  assert (b' = b) as -> by congruence.
  split; [|split; [|split]].
  - rewrite Hflag, andb_true_iff, !Z.eqb_eq. reflexivity.
  - intros Ht T S input. unfold InvertedResidual.forward. rewrite Ht. reflexivity.
  - intros Hf T S input. unfold InvertedResidual.forward. rewrite Hf. reflexivity.
  - intros H2. rewrite Hflag, H2. reflexivity.
Qed.

Lemma block_shortcut_iff_witness :
  let cnf := InvertedResidualConfig.mk 16 3 16 16 true "RE" 1 1 in
  ∃ b, InvertedResidual.__init__ cnf MobileNetV3Small.default_norm_layer = Ok b ∧
    InvertedResidual.use_res_connect b = true ∧
    ∀ (T : Type) (S : torch.Substrate T) (input : T),
      InvertedResidual.forward b input =
      torch.add input (InvertedResidual.block_forward b input).
Proof.
  intros cnf. eexists. split; [reflexivity|].
  split; [reflexivity|].
  refine (proj1 (proj2 (block_shortcut_iff cnf _ _ eq_refl)) eq_refl).
Defined.

End Blocks.

(** ** Assembly of the network and tensor shapes *)

Section Assembly.

Import InvertedResidualConfig.

Lemma setting_returns wm rt dil :
  MobileNetV3Small.inverted_residual_setting wm rt dil = Ok (schedule wm rt dil).
Proof.
  unfold MobileNetV3Small.inverted_residual_setting, schedule.
  rewrite !config_init_returns. reflexivity.
Qed.

Lemma mapM_Forall2 {A B} (f : A → result B) l bs :
  mapM f l = Ok bs ↔ Forall2 (λ a b, f a = Ok b) l bs.
Proof.
  revert bs. induction l as [|a l IH]; intros bs; cbn.
  - split; [intros [= <-]; constructor | intros Hf; inversion Hf; reflexivity].
  - split.
    + destruct (f a) as [b|] eqn:Eb; cbn; [|discriminate].
      destruct (mapM f l) as [bs'|] eqn:Ebs; cbn; [|discriminate].
      intros [= <-]. constructor; [exact Eb | apply IH; reflexivity].
    + intros Hf. inversion Hf as [|? b ? bs' Hb Hbs]; subst.
      rewrite Hb. cbn. apply IH in Hbs. rewrite Hbs. reflexivity.
Qed.


Lemma mapM_is_Ok {A B} (f : A → result B) l :
  Forall (λ a, is_Ok (f a)) l → is_Ok (mapM f l).
Proof.
  induction 1 as [|a l [b Hb] _ [bs Hbs]]; cbn.
  - eexists; reflexivity.
  - rewrite Hb, Hbs. eexists; reflexivity.
Qed.

Lemma schedule_legal wm rt dil : Forall legal (schedule wm rt dil).
Proof.
  unfold schedule, legal.
  repeat (apply Forall_cons; split;
          [unfold row; cbn; destruct dil; tauto|]).
  constructor.
Qed.

Lemma getitem_first wm rt dil :
  Py.getitem (schedule wm rt dil) 0 = Ok (row wm 16 3 16 16 true "RE" 2 1).
Proof. reflexivity. Qed.

Lemma getitem_last wm rt dil :
  Py.getitem (schedule wm rt dil) (-1) =
  Ok (row wm (96 / (if rt then 2 else 1)) 5 (576 / (if rt then 2 else 1))
        (96 / (if rt then 2 else 1)) true "HS" 1 (if dil then 2 else 1)).
Proof. reflexivity. Qed.

Lemma network_init_returns nc wm dropout rt dil nl :
  ∃ blocks,
    Forall2 (λ c b, InvertedResidual.__init__ c (or_default nl) = Ok b)
      (schedule wm rt dil) blocks ∧
    MobileNetV3Small.__init__ nc wm dropout rt dil nl =
    Ok {| MobileNetV3Small.features :=
            MobileNetV3Small.Stage
              (ConvNormActivation.__init__ 3 (adjusted 16 wm) 3 2 None 1
                 (Some (or_default nl)) (Some nn.Hardswish) 1 None)
            :: map MobileNetV3Small.Block blocks ++
            [MobileNetV3Small.Stage
               (ConvNormActivation.__init__
                  (adjusted (96 / (if rt then 2 else 1)) wm)
                  (divisible_value (576 * wm) 8 None) 1 1 None 1
                  (Some (or_default nl)) (Some nn.Hardswish) 1 None)];
          MobileNetV3Small.avgpool := nn.mkAdaptiveAvgPool2d 1;
          MobileNetV3Small.classifier :=
            [MobileNetV3Small.Linear
               (nn.mkLinear (divisible_value (576 * wm) 8 None)
                  (adjusted (1024 / (if rt then 2 else 1)) wm));
             MobileNetV3Small.Hardswish;
             MobileNetV3Small.Dropout dropout;
             MobileNetV3Small.Linear
               (nn.mkLinear (adjusted (1024 / (if rt then 2 else 1)) wm) nc)] |}.
Proof.
  destruct (mapM_is_Ok (λ c, InvertedResidual.__init__ c (or_default nl))
              (schedule wm rt dil)) as [blocks Hb].
  { eapply Forall_impl; [apply schedule_legal|].
    intros c (Hs & _). destruct (block_init_legal_stride c (or_default nl) Hs) as (b & Hb & _).
    exists b; exact Hb. }
  exists blocks. split; [apply mapM_Forall2; exact Hb|].
  unfold MobileNetV3Small.__init__.
  rewrite setting_returns. cbn [rbind].
  rewrite !make_divisible_returns by discriminate. cbn [rbind].
  rewrite getitem_first, getitem_last. cbn [rbind].
  fold (or_default nl). rewrite Hb. cbn [rbind]. reflexivity.
Qed.






















Lemma cna_convs_init i o k s p g nl a d b :
  ∃ pad bias, cna_convs (ConvNormActivation.__init__ i o k s p g nl a d b) =
              [nn.mkConv2d i o k s pad d g bias].
Proof.
  unfold cna_convs, ConvNormActivation.__init__.
  destruct nl, a; cbn; eexists _, _; reflexivity.
Qed.

Lemma cna_convs_valid i o k s p g nl a d b :
  0 < g → (g | i) → (g | o) →
  Forall conv_valid (cna_convs (ConvNormActivation.__init__ i o k s p g nl a d b)).
Proof.
  intros Hg Hi Ho.
  destruct (cna_convs_init i o k s p g nl a d b) as (pad & bias & ->).
  repeat constructor; assumption.
Qed.

Lemma block_convs_valid cnf nl b :
  InvertedResidual.__init__ cnf nl = Ok b →
  0 < cnf.(expanded_channels) →
  Forall conv_valid (block_convs b).
Proof.
  intros Hb He. destruct (block_init_inv cnf nl b Hb) as [Hs _].
  unfold InvertedResidual.__init__ in Hb.
  replace (negb ((1 <=? cnf.(stride)) && (cnf.(stride) <=? 2))) with false in Hb
    by (destruct Hs as [-> | ->]; reflexivity).
  rewrite make_divisible_returns in Hb by discriminate.
  destruct (negb _), cnf.(use_se); cbn [rbind app] in Hb; injection Hb as <-;
    unfold block_convs; cbn [InvertedResidual.block flat_map];
    rewrite ?Forall_app; repeat split;
    try (apply cna_convs_valid;
         [lia | apply Z.divide_1_l || apply Z.divide_refl
              | apply Z.divide_1_l || apply Z.divide_refl]);
    try constructor;
    repeat constructor; cbn; try lia; apply Z.divide_1_l.
Qed.

Lemma schedule_expanded_pos wm rt dil :
  Forall (λ c, 0 < c.(expanded_channels)) (schedule wm rt dil).
Proof.
  unfold schedule.
  repeat (apply Forall_cons; split;
          [unfold row, adjusted; cbn [expanded_channels];
           apply (Z.lt_le_trans _ 8); [lia | apply divisible_value_min; lia]|]).
  constructor.
Qed.

Lemma blocks_convs_valid nl cnfs blocks :
  Forall2 (λ c b, InvertedResidual.__init__ c nl = Ok b) cnfs blocks →
  Forall (λ c, 0 < c.(expanded_channels)) cnfs →
  Forall conv_valid (flat_map block_convs blocks).
Proof.
  induction 1 as [|c b cnfs blocks Hb _ IH]; intros Hp; cbn; [constructor|].
  inversion Hp; subst. apply Forall_app. split.
  - eapply block_convs_valid; eassumption.
  - apply IH. assumption.
Qed.

Lemma network_layers_valid nc wm dropout rt dil nl m :
  MobileNetV3Small.__init__ nc wm dropout rt dil nl = Ok m →
  Forall conv_valid (network_convs m).
Proof.
  intros Hm.
  destruct (network_init_returns nc wm dropout rt dil nl) as (blocks & Hb & Hm').
  rewrite Hm' in Hm. injection Hm as <-.
  unfold network_convs. cbn [MobileNetV3Small.features flat_map].
  rewrite flat_map_app. cbn [flat_map]. rewrite app_nil_r.
  rewrite !Forall_app. split; [|split].
  - apply cna_convs_valid; [lia | apply Z.divide_1_l | apply Z.divide_1_l].
  - rewrite flat_map_concat_map, map_map, <- flat_map_concat_map.
    eapply blocks_convs_valid; [exact Hb | apply schedule_expanded_pos].
  - apply cna_convs_valid; [lia | apply Z.divide_1_l | apply Z.divide_1_l].
Qed.



(** C10. For every width multiplier [> 0] and every setting of the two
    flags, the schedule is built, has 11 rows, and is chain-consistent: the
    output channel count of each row is the input channel count of the
    next.  In the assembled network the stem puts out the input channel
    count of row 0, the blocks are built from the rows in order, and the
    tail takes the output channel count of the last row. *)
Theorem schedule_chain_consistent wm rt dil :
  (0 < wm)%Q →
  ∃ cnfs,
    MobileNetV3Small.inverted_residual_setting wm rt dil = Ok cnfs ∧
    length cnfs = 11%nat ∧
    (∀ (i : nat) c c',
       cnfs !! i = Some c → cnfs !! S i = Some c' →
       c.(out_channels) = c'.(input_channels)) ∧
    ∀ nc dropout, probability dropout → ∃ m stem blocks tail c0 c10,
      MobileNetV3Small.__init__ nc wm dropout rt dil None = Ok m ∧
      m.(MobileNetV3Small.features) =
        MobileNetV3Small.Stage stem :: map MobileNetV3Small.Block blocks ++
        [MobileNetV3Small.Stage tail] ∧
      Forall2 (λ c b, InvertedResidual.__init__ c
                        MobileNetV3Small.default_norm_layer = Ok b) cnfs blocks ∧
      cnfs !! 0%nat = Some c0 ∧ cnfs !! 10%nat = Some c10 ∧
      stem = ConvNormActivation.__init__ 3 c0.(input_channels) 3 2 None 1
               (Some MobileNetV3Small.default_norm_layer) (Some nn.Hardswish)
               1 None ∧
      stem.(ConvNormActivation.out_channels) = c0.(input_channels) ∧
      (∃ o, tail = ConvNormActivation.__init__ c10.(out_channels) o 1 1 None 1
               (Some MobileNetV3Small.default_norm_layer) (Some nn.Hardswish)
               1 None).
Proof.
  intros _. exists (schedule wm rt dil).
  split; [apply setting_returns|]. split; [reflexivity|]. split.
  - intros i c c' Hi Hi'.
    do 11 (destruct i as [|i];
           [cbn in Hi, Hi'; injection Hi as <-; try injection Hi' as <-;
            try reflexivity; discriminate|]).
    cbn in Hi. discriminate.
  - intros nc dropout _.
    destruct (network_init_returns nc wm dropout rt dil None)
      as (blocks & Hb & Hm).
    eexists _, _, blocks, _, _, _. split; [exact Hm|].
    split; [reflexivity|]. split; [exact Hb|].
    split; [reflexivity|]. split; [reflexivity|].
    split; [reflexivity|]. split; [reflexivity|].
    eexists. reflexivity.
Qed.

Lemma schedule_chain_consistent_witness :
  ∃ cnfs,
    MobileNetV3Small.inverted_residual_setting (3 # 4) true false = Ok cnfs ∧
    length cnfs = 11%nat ∧
    (∀ (i : nat) c c',
       cnfs !! i = Some c → cnfs !! S i = Some c' →
       c.(out_channels) = c'.(input_channels)).
Proof.
  destruct (schedule_chain_consistent (3 # 4) true false eq_refl)
    as (cnfs & H1 & H2 & H3 & _).
  exists cnfs. auto.
Defined.

(** C8. With [width_mult = 1.0], [reduced_tail = False] and
    [dilated = False] the network consists, in order, of a stem (3 input
    channels, kernel 3, stride 2, normalisation, Hardswish), exactly 11
    inverted-residual blocks built from the fixed schedule, a tail (kernel 1,
    normalisation, Hardswish), a global average pool, and a classifier of two
    linear layers with a Hardswish and a dropout between them. *)
Theorem network_structure_at_width_1 nc dropout :
  probability dropout →
  ∃ stem blocks tail,
    MobileNetV3Small.__init__ nc 1 dropout false false None =
    Ok {| MobileNetV3Small.features :=
            MobileNetV3Small.Stage stem :: map MobileNetV3Small.Block blocks ++
            [MobileNetV3Small.Stage tail];
          MobileNetV3Small.avgpool := nn.mkAdaptiveAvgPool2d 1;
          MobileNetV3Small.classifier :=
            [MobileNetV3Small.Linear (nn.mkLinear 576 1024);
             MobileNetV3Small.Hardswish;
             MobileNetV3Small.Dropout dropout;
             MobileNetV3Small.Linear (nn.mkLinear 1024 nc)] |} ∧
    stem = {| ConvNormActivation.layers :=
                [ConvNormActivation.Conv (nn.mkConv2d 3 16 3 2 1 1 1 false);
                 ConvNormActivation.Norm (nn.mkBatchNorm2d 16 (1 # 1000) (1 # 100));
                 ConvNormActivation.Act nn.Hardswish];
              ConvNormActivation.out_channels := 16 |} ∧
    length blocks = 11%nat ∧
    Forall2 (λ c b, InvertedResidual.__init__ c
                      MobileNetV3Small.default_norm_layer = Ok b)
      schedule_1 blocks ∧
    tail = {| ConvNormActivation.layers :=
                [ConvNormActivation.Conv (nn.mkConv2d 96 576 1 1 0 1 1 false);
                 ConvNormActivation.Norm (nn.mkBatchNorm2d 576 (1 # 1000) (1 # 100));
                 ConvNormActivation.Act nn.Hardswish];
              ConvNormActivation.out_channels := 576 |}.
Proof.
  intros _.
  destruct (network_init_returns nc 1 dropout false false None)
    as (blocks & Hb & Hm).
  eexists _, blocks, _. split; [exact Hm|].
  split; [reflexivity|].
  change (schedule 1 false false) with schedule_1 in Hb.
  split; [symmetry; exact (Forall2_length _ _ _ Hb)|].
  split; [exact Hb|]. reflexivity.
Qed.

Lemma network_structure_at_width_1_witness :
  probability (2 # 10) ∧
  ∃ m blocks,
    length blocks = 11%nat ∧
    MobileNetV3Small.__init__ 10 1 (2 # 10) false false None = Ok m ∧
    MobileNetV3Small.features m =
         (MobileNetV3Small.Stage
            (ConvNormActivation.mk
               [ConvNormActivation.Conv (nn.mkConv2d 3 16 3 2 1 1 1 false);
                ConvNormActivation.Norm
                  (nn.mkBatchNorm2d 16 (1 # 1000) (1 # 100));
                ConvNormActivation.Act nn.Hardswish] 16)
          :: map MobileNetV3Small.Block blocks ++
          [MobileNetV3Small.Stage
             (ConvNormActivation.mk
                [ConvNormActivation.Conv (nn.mkConv2d 96 576 1 1 0 1 1 false);
                 ConvNormActivation.Norm
                   (nn.mkBatchNorm2d 576 (1 # 1000) (1 # 100));
                 ConvNormActivation.Act nn.Hardswish] 576)]).
Proof.
  assert (Hp : probability (2 # 10)) by (split; discriminate).
  split; [exact Hp|].
  destruct (network_structure_at_width_1 10 (2 # 10) Hp)
    as (stem & blocks & tail & Hm & -> & Hl & _ & ->).
  eexists _, blocks. split; [exact Hl|]. split; [exact Hm|]. reflexivity.
Defined.

End Assembly.

(** ** The squeeze-and-excitation gate *)

Section Gate.










End Gate.

(** ** The pretrained transplant *)

Section Transplant.

(** The names in a [state_dict] of the network are those of its children
    [features] and [classifier] followed by a dot and a path: on them the
    prefix test singles out the classifier subtree. *)
Lemma startswith_classifier_subtree (path : string) :
  startswith_classifier ("classifier." ++ path) = true.
Proof. reflexivity. Qed.

Lemma startswith_classifier_features (path : string) :
  startswith_classifier ("features." ++ path) = false.
Proof. reflexivity. Qed.

Lemma load_state_dict_inv model sd m :
  load_state_dict model sd = Ok m →
  state_dict m = sd ∧ arch m = arch model ∧
  dom sd = dom (state_dict model).
Proof.
  unfold load_state_dict. intros H.
  destruct (decide (dom sd = dom (state_dict model))) as [Hd|]; [|discriminate].
  destruct (decide (map_Forall _ sd)); [|discriminate].
  injection H as <-. auto.
Qed.

Lemma load_state_dict_returns model sd :
  dom sd = dom (state_dict model) →
  (∀ k t t', sd !! k = Some t → state_dict model !! k = Some t' →
             tensor_shape t' = tensor_shape t) →
  load_state_dict model sd = Ok {| arch := arch model; state_dict := sd |}.
Proof.
  intros Hd Hs. unfold load_state_dict.
  destruct (decide (dom sd = dom (state_dict model))); [|contradiction].
  destruct (decide (map_Forall _ sd)) as [|Hn]; [reflexivity|].
  exfalso. apply Hn. intros k t Hk.
  assert (Hin : k ∈ dom (state_dict model)).
  { rewrite <- Hd. apply elem_of_dom. eauto. }
  apply elem_of_dom in Hin as [t' Ht']. rewrite Ht'. cbn.
  f_equal. eapply Hs; eassumption.
Qed.

Lemma lookup_body_keep (tv : gmap string tensor) k t :
  tv !! k = Some t → startswith_classifier k = false →
  remove_classifier tv !! k = Some t.
Proof.
  intros Hk Hp. unfold remove_classifier. apply map_lookup_filter_Some. auto.
Qed.

Lemma lookup_body_drop (tv : gmap string tensor) k :
  startswith_classifier k = true → remove_classifier tv !! k = None.
Proof.
  intros Hp. unfold remove_classifier.
  apply map_lookup_filter_None. right. intros t _ Hf.
  change (startswith_classifier k = false) in Hf. congruence.
Qed.

(** C9. When the pretrained transplant returns a model: if the target
    [num_classes] differs from 1000, every entry of the source whose name
    does not start with [classifier] is the model's entry of that name, and
    every entry of the model whose name starts with [classifier] is the
    freshly initialised one; if [num_classes] is 1000, the model holds
    exactly the entries of the source, the classifier's included. *)
Theorem transplant_frame kwargs fresh tv m :
  mobilenet_v3_small true kwargs fresh tv = Ok m →
  (get kwargs.(kw_num_classes) 1000 ≠ 1000 →
     (∀ k t, tv !! k = Some t → startswith_classifier k = false →
             state_dict m !! k = Some t) ∧
     (∀ k, startswith_classifier k = true →
           state_dict m !! k = fresh !! k)) ∧
  (get kwargs.(kw_num_classes) 1000 = 1000 → state_dict m = tv).
Proof.
  unfold mobilenet_v3_small. intros H.
  destruct (MobileNetV3Small.__init__ _ _ _ _ _ _) as [a|]; [|discriminate].
  cbn [rbind] in H.
  destruct (Z.eqb_spec (get kwargs.(kw_num_classes) 1000) 1000) as [E|E];
    cbn [negb] in H; apply load_state_dict_inv in H as (Hs & _ & _);
    split; try contradiction; try (intros _).
  - exact Hs.
  - rewrite Hs. cbn [state_dict]. split.
    + intros k t Hk Hp. apply lookup_union_Some_l.
      apply lookup_body_keep; assumption.
    + intros k Hp. apply lookup_union_r, lookup_body_drop, Hp.
Qed.

Lemma transplant_returns kwargs fresh tv :
  get kwargs.(kw_num_classes) 1000 ≠ 1000 →
  (∀ k t, tv !! k = Some t → startswith_classifier k = false →
          ∃ t', fresh !! k = Some t' ∧ tensor_shape t' = tensor_shape t) →
  is_Ok (mobilenet_v3_small true kwargs fresh tv).
Proof.
  intros E Hm. unfold mobilenet_v3_small.
  destruct (network_init_returns (get kwargs.(kw_num_classes) 1000)
              (get kwargs.(kw_width_mult) 1%Q) (get kwargs.(kw_dropout) (2 # 10))
              (get kwargs.(kw_reduced_tail) false) (get kwargs.(kw_dilated) false)
              kwargs.(kw_norm_layer)) as (blocks & _ & ->).
  cbn [rbind].
  destruct (Z.eqb_spec (get kwargs.(kw_num_classes) 1000) 1000) as [|_];
    [contradiction|]. cbn [negb].
  rewrite load_state_dict_returns; [eexists; reflexivity| |]; cbn [state_dict].
  - apply set_eq. intros k. rewrite dom_union, elem_of_union, !elem_of_dom.
    split; [|auto]. intros [[t Ht]|Hf]; [|exact Hf].
    apply map_lookup_filter_Some in Ht as [Ht Hp]. cbn in Hp.
    destruct (Hm k t Ht Hp) as (t' & Ht' & _). eauto.
  - intros k t t' Hk Hk'.
    apply lookup_union_Some_raw in Hk as [Hk | [_ Hk]]; [|congruence].
    apply map_lookup_filter_Some in Hk as [Hk Hp]. cbn in Hp.
    destruct (Hm k t Hk Hp) as (t'' & Ht'' & Hsh). congruence.
Qed.

Lemma transplant_frame_witness :
  let t1 := mk_tensor [2] [1%Q; 2%Q] in
  let t2 := mk_tensor [2] [3%Q; 4%Q] in
  let t3 := mk_tensor [3] [3%Q; 4%Q; 5%Q] in
  let fresh : gmap string tensor :=
    <["features.0.0.weight" := t1]> (<["classifier.3.bias" := t1]> ∅) in
  let tv : gmap string tensor :=
    <["features.0.0.weight" := t2]> (<["classifier.3.bias" := t3]> ∅) in
  let kwargs := mk_Kwargs (Some 10) None None None None None in
  ∃ m, mobilenet_v3_small true kwargs fresh tv = Ok m ∧
       state_dict m !! "features.0.0.weight" = Some t2 ∧
       state_dict m !! "classifier.3.bias" = Some t1.
Proof.
  intros t1 t2 t3 fresh tv kwargs.
  destruct (mobilenet_v3_small true kwargs fresh tv) as [m|e] eqn:Hm;
    [|vm_compute in Hm; discriminate Hm].
  exists m. split; [reflexivity|].
  destruct (transplant_frame kwargs fresh tv m Hm) as [H1 _].
  destruct (H1 ltac:(discriminate)) as [Hb Hc]. split.
  - apply Hb; reflexivity.
  - rewrite Hc by reflexivity. reflexivity.
Defined.

End Transplant.

(** ** Further properties of the channel quantizer *)

Section QuantizerMore.

(** The candidate and the result, unfolded for a non-zero divisor. *)
Lemma divisible_value_eq (v : Q) (d : Z) (m : option Z) :
  d ≠ 0 →
  divisible_value v d m =
  let c := Z.max (match m with None => d | Some m' => m' end)
             (Py.int (v + inject_Z d / 2) / d * d) in
  if Py.lt (inject_Z c) ((9 # 10) * v) then c + d else c.
Proof.
  intros Hd. unfold divisible_value, _make_divisible, Py.floordiv.
  destruct (Z.eqb_spec d 0) as [E|_]; [contradiction|]. cbn [rbind].
  destruct (Py.lt _ _); reflexivity.
Qed.

Lemma int_le (x y : Q) : (x <= y)%Q → Py.int x ≤ Py.int y.
Proof.
  intros Hxy. destruct (Qlt_le_dec x 0) as [Hx|Hx], (Qlt_le_dec y 0) as [Hy|Hy].
  - rewrite !int_neg_floor by lra.
    assert (Qfloor (- y) ≤ Qfloor (- x)) by (apply Qfloor_resp_le; lra). lia.
  - rewrite int_neg_floor by lra. rewrite int_nonneg_floor by lra.
    assert (0 ≤ Qfloor (- x)).
    { rewrite <- (Qfloor_Z 0). apply Qfloor_resp_le. change (inject_Z 0) with 0%Q. lra. }
    assert (0 ≤ Qfloor y).
    { rewrite <- (Qfloor_Z 0). apply Qfloor_resp_le. change (inject_Z 0) with 0%Q. lra. }
    lia.
  - lra.
  - rewrite !int_nonneg_floor by lra. apply Qfloor_resp_le, Hxy.
Qed.

Lemma max_multiple (d m q : Z) : (d | m) → (d | Z.max m (q * d)).
Proof.
  intros Hm. destruct (Z.max_spec m (q * d)) as [[_ ->]|[_ ->]];
    [apply Z.divide_factor_r | exact Hm].
Qed.

(** X1. For a non-zero divisor and a [min_value] that is absent or a multiple of
    the divisor, [_make_divisible] returns, and its result is a multiple of
    the divisor, for every [v] (negative ones included). *)
Theorem make_divisible_multiple (v : Q) (d : Z) (m : option Z) :
  d ≠ 0 → (∀ m', m = Some m' → (d | m')) →
  ∃ r, _make_divisible v d m = Ok r ∧ (d | r).
Proof.
  intros Hd Hm. exists (divisible_value v d m).
  split; [apply make_divisible_returns, Hd|].
  rewrite divisible_value_eq by exact Hd. cbn zeta.
  set (q := Py.int _ / d).
  assert (Hc : (d | Z.max (match m with None => d | Some m' => m' end) (q * d))).
  { apply max_multiple. destruct m as [m'|]; [apply Hm; reflexivity|apply Z.divide_refl]. }
  destruct (Py.lt _ _); [apply Z.divide_add_r; [exact Hc|apply Z.divide_refl]|exact Hc].
Qed.

Lemma make_divisible_multiple_witness :
  ∃ r, _make_divisible (35 # 2) 8 (Some 16) = Ok r ∧ (8 | r).
Proof.
  apply make_divisible_multiple; [discriminate|].
  intros m' [= <-]. exists 2. reflexivity.
Defined.

(** With a [min_value] that is no multiple of the divisor the result need
    not be one. *)
Example make_divisible_odd_min : _make_divisible 3 8 (Some 5) = Ok 5.
Proof. reflexivity. Qed.


Lemma multiples_apart (d a b : Z) :
  0 < d → (d | a) → (d | b) → a < b → a + d ≤ b.
Proof.
  intros Hd [x ->] [y ->] Hlt.
  assert (x < y) by nia. nia.
Qed.

(** X3. For a positive divisor and a [min_value] that is absent or a multiple of
    the divisor, [_make_divisible] is monotone in [v]: the 10% bump never
    lets a smaller request overtake a larger one. *)
Theorem make_divisible_monotone (v1 v2 : Q) (d : Z) (m : option Z) :
  0 < d → (∀ m', m = Some m' → (d | m')) → (v1 <= v2)%Q →
  ∃ r1 r2, _make_divisible v1 d m = Ok r1 ∧ _make_divisible v2 d m = Ok r2 ∧
           r1 ≤ r2.
Proof.
  intros Hd Hm Hv. exists (divisible_value v1 d m), (divisible_value v2 d m).
  split; [apply make_divisible_returns; lia|].
  split; [apply make_divisible_returns; lia|].
  rewrite !divisible_value_eq by lia. cbn zeta.
  set (M := match m with None => d | Some m' => m' end).
  assert (HM : (d | M)).
  { unfold M. destruct m as [m'|]; [apply Hm; reflexivity|apply Z.divide_refl]. }
  set (q1 := Py.int (v1 + inject_Z d / 2) / d).
  set (q2 := Py.int (v2 + inject_Z d / 2) / d).
  assert (Hq : q1 ≤ q2).
  { apply Z.div_le_mono; [exact Hd|]. apply int_le. lra. }
  assert (Hc : Z.max M (q1 * d) ≤ Z.max M (q2 * d)) by nia.
  destruct (Py.lt (inject_Z (Z.max M (q1 * d))) _) eqn:E1;
    destruct (Py.lt (inject_Z (Z.max M (q2 * d))) _) eqn:E2; try lia.
  apply lt_iff in E1.
  assert (E2' : ¬ (inject_Z (Z.max M (q2 * d)) < (9 # 10) * v2)%Q).
  { intros H. apply lt_iff in H. congruence. }
  apply Qnot_lt_le in E2'.
  assert (Hlt : Z.max M (q1 * d) < Z.max M (q2 * d)).
  { rewrite Zlt_Qlt. lra. }
  apply multiples_apart; try assumption; apply max_multiple, HM.
Qed.

Lemma make_divisible_monotone_witness :
  ∃ r1 r2, _make_divisible (16 * (3 # 4)) 8 None = Ok r1 ∧
           _make_divisible (16 * 1) 8 None = Ok r2 ∧ r1 ≤ r2.
Proof.
  apply make_divisible_monotone; [reflexivity | discriminate | discriminate].
Defined.

(** With a [min_value] that is no multiple of the divisor a larger target
    can give a smaller result. *)
Example make_divisible_not_monotone :
  _make_divisible (119 # 10) 8 (Some 10) = Ok 18 ∧
  _make_divisible 12 8 (Some 10) = Ok 16.
Proof. split; reflexivity. Qed.





Lemma int_below (x : Q) (n : Z) : 0 < n → (x < inject_Z n)%Q → Py.int x < n.
Proof.
  intros Hn Hx. destruct (Qlt_le_dec x 0) as [Hneg|Hpos].
  - rewrite int_neg_floor by lra.
    assert (0 ≤ Qfloor (- x)).
    { rewrite <- (Qfloor_Z 0). apply Qfloor_resp_le. change (inject_Z 0) with 0%Q. lra. }
    lia.
  - rewrite int_nonneg_floor by lra. pose proof (Qfloor_le x) as Hf.
    rewrite Zlt_Qlt. lra.
Qed.

Lemma divisible_value_collapses (v : Q) (d : Z) :
  0 < d → (9 * v <= 10 * inject_Z d)%Q → divisible_value v d None = d.
Proof.
  intros Hd Hv. rewrite divisible_value_eq by lia. cbn zeta.
  assert (Hd' : (0 < inject_Z d)%Q).
  { change 0%Q with (inject_Z 0). rewrite <- Zlt_Qlt. exact Hd. }
  assert (Hh : (inject_Z d / 2 == (1 # 2) * inject_Z d)%Q) by field.
  assert (Hi : Py.int (v + inject_Z d / 2) < 2 * d).
  { apply int_below; [lia|]. rewrite inject_Z_mult. change (inject_Z 2) with 2%Q. lra. }
  assert (Hq : Py.int (v + inject_Z d / 2) / d ≤ 1).
  { assert (Py.int (v + inject_Z d / 2) / d < 2); [|lia].
    apply Z.div_lt_upper_bound; lia. }
  rewrite Z.max_l by nia.
  destruct (Py.lt _ _) eqn:E; [|reflexivity].
  apply lt_iff in E. lra.
Qed.





End QuantizerMore.

(** ** Further properties of the layers and blocks *)

Section LayersMore.

Import InvertedResidualConfig.







(** An exception raised by a layer passes through every later layer. *)
Lemma cna_layers_absorb (ls : list ConvNormActivation.layer) e :
  fold_left (λ x l, ConvNormActivation.apply_layer l x) ls
    (Raise e : result (list Z)) = Raise e.
Proof.
  induction ls as [|l ls IH]; [reflexivity|].
  cbn [fold_left]. destruct l; exact IH.
Qed.

Lemma cna_absorbs c e :
  ConvNormActivation.forward c (Raise e : result (list Z)) = Raise e.
Proof. apply cna_layers_absorb. Qed.

Lemma se_absorbs s e :
  SqueezeExcitation.forward s (Raise e : result (list Z)) = Raise e.
Proof. reflexivity. Qed.

Lemma block_layers_absorb (ls : list InvertedResidual.layer) e :
  fold_left (λ x l, InvertedResidual.apply_layer l x) ls
    (Raise e : result (list Z)) = Raise e.
Proof.
  induction ls as [|l ls IH]; [reflexivity|].
  cbn [fold_left]. destruct l as [c|s]; cbn [InvertedResidual.apply_layer].
  - rewrite cna_absorbs. exact IH.
  - rewrite se_absorbs. exact IH.
Qed.

Lemma broadcast_raise_r (x : result (list Z)) e :
  (∃ s, x = Ok s) → Shape.broadcast x (Raise e) = Raise e.
Proof. intros [s ->]. reflexivity. Qed.

Lemma block_absorbs b e :
  InvertedResidual.forward b (Raise e : result (list Z)) = Raise e.
Proof.
  unfold InvertedResidual.forward, InvertedResidual.block_forward.
  rewrite block_layers_absorb. destruct (InvertedResidual.use_res_connect b);
    reflexivity.
Qed.

Lemma features_absorb (fs : list MobileNetV3Small.feature) e :
  fold_left (λ x f, MobileNetV3Small.apply_feature f x) fs
    (Raise e : result (list Z)) = Raise e.
Proof.
  induction fs as [|f fs IH]; [reflexivity|].
  cbn [fold_left]. destruct f as [c|b]; cbn [MobileNetV3Small.apply_feature].
  - rewrite cna_absorbs. exact IH.
  - rewrite block_absorbs. exact IH.
Qed.

Lemma heads_absorb (hs : list MobileNetV3Small.head) e :
  fold_left (λ x h, MobileNetV3Small.apply_head h x) hs
    (Raise e : result (list Z)) = Raise e.
Proof.
  induction hs as [|h hs IH]; [reflexivity|].
  cbn [fold_left]. destruct h; exact IH.
Qed.

Lemma cna_wrong_channels i o k s p g nl a d b n c h w :
  c ≠ i →
  ConvNormActivation.forward
    (ConvNormActivation.__init__ i o k s p g nl a d b) (Ok [n; c; h; w]) =
  Raise channel_error.
Proof.
  intros Hc.
  unfold ConvNormActivation.forward, ConvNormActivation.__init__.
  assert (E : ∀ pad bias,
             Shape.conv2d (nn.mkConv2d i o k s pad d g bias) (Ok [n; c; h; w]) =
             Raise channel_error).
  { intros pad bias. unfold Shape.conv2d.
    cbn [rbind nn.in_channels]. destruct (Z.eqb_spec c i); [contradiction|].
    reflexivity. }
  destruct nl as [f|], a as [a|];
    cbn [app fold_left ConvNormActivation.layers
         ConvNormActivation.apply_layer torch.conv2d torch.batch_norm2d
         torch.act Shape.substrate];
    rewrite E; reflexivity.
Qed.






(** The stages a block is made of, read off [InvertedResidual.__init__]. *)
Lemma block_init_stages cnf nl b :
  InvertedResidual.__init__ cnf nl = Ok b →
  let a := if String.eqb cnf.(activation) "HS" then nn.Hardswish else nn.ReLU in
  let e := cnf.(expanded_channels) in
  b.(InvertedResidual.block) =
    (if e =? cnf.(input_channels) then []
     else [InvertedResidual.CNA
             (ConvNormActivation.__init__ cnf.(input_channels) e 1 1 None 1
                (Some nl) (Some a) 1 None)]) ++
    [InvertedResidual.CNA
       (ConvNormActivation.__init__ e e cnf.(kernel) cnf.(stride) None e
          (Some nl) (Some a) cnf.(dilation) None)] ++
    (if cnf.(use_se)
     then [InvertedResidual.SE
             (InvertedResidual.se_layer e
                (divisible_value (inject_Z (e / 4)) 8 None) nn.ReLU)]
     else []) ++
    [InvertedResidual.CNA
       (ConvNormActivation.__init__ e cnf.(out_channels) 1 1 None 1
          (Some nl) None 1 None)] ∧
  b.(InvertedResidual.out_channels) = cnf.(out_channels) ∧
  b.(InvertedResidual.is_strided) = (1 <? cnf.(stride)).
Proof.
  intros Hb. destruct (block_init_inv cnf nl b Hb) as [Hs _].
  unfold InvertedResidual.__init__ in Hb.
  replace (negb ((1 <=? cnf.(stride)) && (cnf.(stride) <=? 2))) with false in Hb
    by (destruct Hs as [-> | ->]; reflexivity).
  rewrite make_divisible_returns in Hb by discriminate.
  intros a e. subst a e.
  destruct (cnf.(expanded_channels) =? cnf.(input_channels)), cnf.(use_se);
    cbn [negb rbind app] in Hb; injection Hb as <-;
    cbn [InvertedResidual.block InvertedResidual.out_channels
         InvertedResidual.is_strided app]; auto.
Qed.




(** X12. The layers of a block built by [InvertedResidual.__init__]: there are two
    of them plus one for the expansion (when the expanded width differs from
    the input width) plus one for the gate (when [use_se]); the last one is
    the 1x1 projection with normalisation and no activation; the gate, when
    present, has squeeze width [_make_divisible(expanded // 4, 8)], a ReLU
    inside and a hard-sigmoid scale; [is_strided] holds exactly at stride 2,
    and never together with the shortcut. *)
Theorem block_structure cnf nl b :
  InvertedResidual.__init__ cnf nl = Ok b →
  length b.(InvertedResidual.block) =
    (2 + (if (cnf.(expanded_channels) =? cnf.(input_channels))%Z then 0 else 1)
       + (if cnf.(use_se) then 1 else 0))%nat ∧
  last b.(InvertedResidual.block) =
    Some (InvertedResidual.CNA
            (ConvNormActivation.mk
               [ConvNormActivation.Conv
                  (nn.mkConv2d cnf.(expanded_channels) cnf.(out_channels)
                     1 1 0 1 1 false);
                ConvNormActivation.Norm (nl cnf.(out_channels))]
               cnf.(out_channels))) ∧
  block_gates b =
    (if cnf.(use_se)
     then [SqueezeExcitation.__init__ cnf.(expanded_channels)
             (divisible_value (inject_Z (cnf.(expanded_channels) / 4)) 8 None)
             nn.ReLU nn.Hardsigmoid]
     else []) ∧
  (InvertedResidual.is_strided b = true ↔ cnf.(stride) = 2) ∧
  (InvertedResidual.use_res_connect b = true →
   InvertedResidual.is_strided b = false).
Proof.
  intros Hb. destruct (block_init_stages cnf nl b Hb) as (Hl & _ & Hst).
  destruct (block_init_inv cnf nl b Hb) as [Hs Hflag].
  cbn zeta in Hl. rewrite Hl, Hst, Hflag. unfold block_gates. rewrite Hl.
  split; [|split; [|split; [|split]]].
  - destruct (_ =? _), cnf.(use_se); reflexivity.
  - rewrite !app_assoc, last_snoc. reflexivity.
  - destruct (_ =? _), cnf.(use_se); reflexivity.
  - destruct Hs as [-> | ->]; split; intros; (reflexivity || discriminate).
  - intros H. apply andb_prop in H as [H1 _]. apply Z.eqb_eq in H1.
    rewrite H1. reflexivity.
Qed.

Lemma block_structure_witness :
  let cnf := InvertedResidualConfig.mk 16 3 16 16 true "RE" 2 1 in
  ∃ b, InvertedResidual.__init__ cnf MobileNetV3Small.default_norm_layer = Ok b ∧
       length b.(InvertedResidual.block) = 3%nat ∧
       InvertedResidual.is_strided b = true.
Proof.
  intros cnf.
  destruct (InvertedResidual.__init__ cnf MobileNetV3Small.default_norm_layer)
    as [b|e] eqn:Hb; [|vm_compute in Hb; discriminate Hb].
  exists b. split; [reflexivity|].
  destruct (block_structure cnf _ b Hb) as (H1 & _ & _ & H4 & _).
  split; [exact H1 | apply H4; reflexivity].
Defined.

End LayersMore.

(** ** Further properties of the assembled network *)

Section NetworkMore.

Import InvertedResidualConfig.

Lemma divisible_value_aligned (v : Q) : aligned (divisible_value v 8 None).
Proof.
  split; [apply divisible_value_min | apply divisible_value_multiple]; lia.
Qed.

Lemma Forall_one {A} (P : A → Prop) x : P x → Forall P [x].
Proof. intros H. constructor; [exact H|constructor]. Qed.

Lemma block_convs_aligned cnf nl b :
  InvertedResidual.__init__ cnf nl = Ok b →
  aligned cnf.(input_channels) → aligned cnf.(expanded_channels) →
  aligned cnf.(out_channels) →
  Forall (λ c, aligned c.(nn.in_channels) ∧ aligned c.(nn.out_channels))
    (block_convs b).
Proof.
  intros Hb Hi He Ho. destruct (block_init_stages cnf nl b Hb) as (Hl & _ & _).
  cbn zeta in Hl. unfold block_convs. rewrite Hl.
  pose proof (divisible_value_aligned (inject_Z (cnf.(expanded_channels) / 4)))
    as Hq.
  rewrite !flat_map_app, !Forall_app. repeat split.
  - destruct (_ =? _); cbn [flat_map]; [constructor|].
    rewrite app_nil_r.
    destruct (cna_convs_init cnf.(input_channels) cnf.(expanded_channels)
                1 1 None 1 (Some nl)
                (Some (if String.eqb cnf.(activation) "HS"
                       then nn.Hardswish else nn.ReLU)) 1 None)
      as (pad & bias & ->).
    apply Forall_one. split; assumption.
  - cbn [flat_map]. rewrite app_nil_r.
    destruct (cna_convs_init cnf.(expanded_channels) cnf.(expanded_channels)
                cnf.(kernel) cnf.(stride) None cnf.(expanded_channels) (Some nl)
                (Some (if String.eqb cnf.(activation) "HS"
                       then nn.Hardswish else nn.ReLU)) cnf.(dilation) None)
      as (pad & bias & ->).
    apply Forall_one. split; assumption.
  - destruct cnf.(use_se); cbn [flat_map]; [|constructor].
    constructor; [split; assumption|]. apply Forall_one. split; assumption.
  - cbn [flat_map]. rewrite app_nil_r.
    destruct (cna_convs_init cnf.(expanded_channels) cnf.(out_channels)
                1 1 None 1 (Some nl) None 1 None) as (pad & bias & ->).
    apply Forall_one. split; assumption.
Qed.

Lemma schedule_aligned wm rt dil :
  Forall (λ c, aligned c.(input_channels) ∧ aligned c.(expanded_channels) ∧
               aligned c.(out_channels)) (schedule wm rt dil).
Proof.
  unfold schedule.
  repeat (apply Forall_cons; split;
          [unfold row, adjusted; cbn [input_channels expanded_channels out_channels];
           repeat split; apply divisible_value_aligned|]).
  constructor.
Qed.

Lemma blocks_convs_aligned nl cnfs blocks :
  Forall2 (λ c b, InvertedResidual.__init__ c nl = Ok b) cnfs blocks →
  Forall (λ c, aligned c.(input_channels) ∧ aligned c.(expanded_channels) ∧
               aligned c.(out_channels)) cnfs →
  Forall (λ c, aligned c.(nn.in_channels) ∧ aligned c.(nn.out_channels))
    (flat_map block_convs blocks).
Proof.
  induction 1 as [|c b cnfs blocks Hb _ IH]; intros Hp; cbn; [constructor|].
  inversion Hp as [|? ? (Hi & He & Ho) Hp']; subst. apply Forall_app. split.
  - eapply block_convs_aligned; eassumption.
  - apply IH. assumption.
Qed.

(** X13. In every network [MobileNetV3Small.__init__] returns, for every width
    multiplier (zero and negative ones included), every convolution has
    arguments the library accepts, the stem reads 3 channels, and every other
    channel count of the feature extractor and both widths of the classifier
    are multiples of 8 that are at least 8. *)
Theorem network_channels_aligned nc wm dropout rt dil nl m :
  MobileNetV3Small.__init__ nc wm dropout rt dil nl = Ok m →
  Forall conv_valid (network_convs m) ∧
  ∃ stem rest hidden,
    network_convs m = stem :: rest ∧
    stem.(nn.in_channels) = 3 ∧ aligned stem.(nn.out_channels) ∧
    Forall (λ c, aligned c.(nn.in_channels) ∧ aligned c.(nn.out_channels)) rest ∧
    aligned hidden ∧
    ∃ tail_out,
      aligned tail_out ∧
      m.(MobileNetV3Small.classifier) =
        [MobileNetV3Small.Linear (nn.mkLinear tail_out hidden);
         MobileNetV3Small.Hardswish;
         MobileNetV3Small.Dropout dropout;
         MobileNetV3Small.Linear (nn.mkLinear hidden nc)].
Proof.
  intros Hm. split; [exact (network_layers_valid _ _ _ _ _ _ _ Hm)|].
  destruct (network_init_returns nc wm dropout rt dil nl) as (blocks & Hb & Hm').
  rewrite Hm' in Hm. injection Hm as <-.
  unfold network_convs. cbn [MobileNetV3Small.features flat_map].
  rewrite flat_map_app. cbn [flat_map]. rewrite app_nil_r.
  destruct (cna_convs_init 3 (adjusted 16 wm) 3 2 None 1 (Some (or_default nl))
              (Some nn.Hardswish) 1 None) as (pad & bias & ->).
  destruct (cna_convs_init (adjusted (96 / (if rt then 2 else 1)) wm)
              (divisible_value (576 * wm) 8 None) 1 1 None 1
              (Some (or_default nl)) (Some nn.Hardswish) 1 None)
    as (pad' & bias' & ->).
  eexists _, _, _. split; [reflexivity|]. cbn [nn.in_channels nn.out_channels].
  split; [reflexivity|]. split; [apply divisible_value_aligned|].
  split.
  - apply Forall_app. split.
    + rewrite flat_map_concat_map, map_map, <- flat_map_concat_map.
      eapply blocks_convs_aligned; [exact Hb | apply schedule_aligned].
    + apply Forall_one. split; apply divisible_value_aligned.
  - split; [apply divisible_value_aligned|].
    eexists. split; [apply divisible_value_aligned|]. reflexivity.
Qed.

Lemma network_channels_aligned_witness :
  ∃ m, MobileNetV3Small.__init__ 10 (3 # 4) (2 # 10) true false None = Ok m ∧
       Forall conv_valid (network_convs m).
Proof.
  destruct (MobileNetV3Small.__init__ 10 (3 # 4) (2 # 10) true false None)
    as [m|e] eqn:Hm; [|vm_compute in Hm; discriminate Hm].
  exists m. split; [reflexivity|].
  exact (proj1 (network_channels_aligned _ _ _ _ _ _ m Hm)).
Defined.

Lemma adjusted_collapses (c : Z) (wm : Q) :
  0 ≤ c ≤ 576 → (324 * wm <= 5)%Q → adjusted c wm = 8.
Proof.
  intros [Hc0 Hc] Hw. unfold adjusted. apply divisible_value_collapses; [lia|].
  change (inject_Z 8) with 8%Q.
  assert (H0 : (0 <= inject_Z c)%Q).
  { change 0%Q with (inject_Z 0). rewrite <- Zle_Qle. exact Hc0. }
  assert (H1 : (inject_Z c <= 576)%Q).
  { change 576%Q with (inject_Z 576). rewrite <- Zle_Qle. exact Hc. }
  destruct (Qlt_le_dec wm 0) as [Hn|Hp]; nra.
Qed.

(** X14. For a width multiplier of at most [5/324] (zero and negative ones
    included) every row of the schedule has 8 input, 8 expanded and 8 output
    channels; so no block has an expansion layer, and every block of stride 1
    takes the shortcut. *)
Theorem tiny_width_collapses_channels wm rt dil :
  (324 * wm <= 5)%Q →
  ∃ cnfs,
    MobileNetV3Small.inverted_residual_setting wm rt dil = Ok cnfs ∧
    Forall (λ c, c.(input_channels) = 8 ∧ c.(expanded_channels) = 8 ∧
                 c.(out_channels) = 8) cnfs ∧
    ∀ nl c b, c ∈ cnfs → InvertedResidual.__init__ c nl = Ok b →
              length b.(InvertedResidual.block) =
                (if c.(use_se) then 3 else 2)%nat ∧
              (InvertedResidual.use_res_connect b = true ↔ c.(stride) = 1).
Proof.
  intros Hw. exists (schedule wm rt dil). split; [apply setting_returns|].
  assert (Hall : Forall (λ c, c.(input_channels) = 8 ∧
                              c.(expanded_channels) = 8 ∧ c.(out_channels) = 8)
                   (schedule wm rt dil)).
  { unfold schedule.
    repeat (apply Forall_cons; split;
            [unfold row; cbn [input_channels expanded_channels out_channels];
             repeat split;
             (apply adjusted_collapses;
              [destruct rt; split; apply Z.leb_le; reflexivity | exact Hw])|]).
    constructor. }
  split; [exact Hall|]. intros nl c b Hin Hb.
  rewrite Forall_forall in Hall. destruct (Hall c Hin) as (Hi & He & Ho).
  destruct (block_init_stages c nl b Hb) as (Hl & _ & _). cbn zeta in Hl.
  destruct (block_init_inv c nl b Hb) as [_ Hflag].
  rewrite Hl, Hflag, Hi, He, Ho. split.
  - destruct c.(use_se); reflexivity.
  - rewrite andb_true_iff, !Z.eqb_eq. tauto.
Qed.

Lemma tiny_width_collapses_channels_witness :
  ∃ cnfs,
    MobileNetV3Small.inverted_residual_setting (-1) false true = Ok cnfs ∧
    Forall (λ c, c.(input_channels) = 8 ∧ c.(expanded_channels) = 8 ∧
                 c.(out_channels) = 8) cnfs.
Proof.
  destruct (tiny_width_collapses_channels (-1) false true) as (cnfs & H1 & H2 & _);
    [discriminate|].
  exists cnfs. split; assumption.
Defined.







Lemma forward_stem_raises m stem rest e (x : result (list Z)) :
  m.(MobileNetV3Small.features) = MobileNetV3Small.Stage stem :: rest →
  ConvNormActivation.forward stem x = Raise e →
  MobileNetV3Small.forward m x = Raise e.
Proof.
  intros Hf He. unfold MobileNetV3Small.forward. rewrite Hf.
  cbn [fold_left MobileNetV3Small.apply_feature]. rewrite He, features_absorb.
  cbn [torch.adaptive_avg_pool2d torch.flatten Shape.substrate
       Shape.adaptive_avg_pool2d Shape.flatten rbind].
  apply heads_absorb.
Qed.

Lemma stem_empty_image o nl n h w :
  good_norm nl → h ≤ 0 ∨ w ≤ 0 →
  ConvNormActivation.forward
    (ConvNormActivation.__init__ 3 o 3 2 None 1 (Some nl) (Some nn.Hardswish)
       1 None)
    (Ok [n; 3; h; w]) = Raise kernel_error.
Proof.
  intros Hn Hhw.
  unfold ConvNormActivation.forward, ConvNormActivation.__init__.
  cbn [app fold_left ConvNormActivation.layers
       ConvNormActivation.apply_layer torch.conv2d torch.batch_norm2d
       torch.act Shape.substrate].
  assert (E : Shape.conv2d (nn.mkConv2d 3 o 3 2 ((3 - 1) / 2 * 1) 1 1 false)
                (Ok [n; 3; h; w]) = Raise kernel_error).
  { unfold Shape.conv2d. cbn [rbind nn.in_channels nn.kernel_size nn.padding
      nn.dilation nn.stride nn.out_channels].
    change ((3 - 1) / 2 * 1) with 1. change (2 * 1) with 2.
    change (1 * (3 - 1) + 1) with 3. change (3 =? 3) with true.
    change (2 <=? 0) with false. cbn [negb].
    destruct (Z.ltb_spec (h + 2) 3), (Z.ltb_spec (w + 2) 3);
      cbn [orb]; try reflexivity. lia. }
  rewrite E. reflexivity.
Qed.

(** X16. The forward pass of every constructed network raises the
    channel-mismatch error on an input that does not have 3 channels, and the
    kernel-size error of the stem convolution on a 3-channel input with an
    empty spatial dimension. *)
Theorem forward_rejects_bad_input nc wm dropout rt dil nl m n c h w :
  MobileNetV3Small.__init__ nc wm dropout rt dil nl = Ok m →
  (∀ f, nl = Some f → good_norm f) →
  (c ≠ 3 →
   MobileNetV3Small.forward m (Ok [n; c; h; w]) = Raise channel_error) ∧
  (c = 3 → h ≤ 0 ∨ w ≤ 0 →
   MobileNetV3Small.forward m (Ok [n; c; h; w]) = Raise kernel_error).
Proof.
  intros Hm Hnl.
  assert (Hn : good_norm (or_default nl)).
  { destruct nl as [f|]; [apply Hnl; reflexivity | intros k; reflexivity]. }
  destruct (network_init_returns nc wm dropout rt dil nl) as (blocks & Hb & Hm').
  rewrite Hm' in Hm. injection Hm as <-. split.
  - intros Hc. eapply forward_stem_raises; [reflexivity|].
    apply cna_wrong_channels. exact Hc.
  - intros -> Hhw. eapply forward_stem_raises; [reflexivity|].
    apply stem_empty_image; assumption.
Qed.

Lemma forward_rejects_bad_input_witness :
  ∃ m, MobileNetV3Small.__init__ 10 1 (2 # 10) false false None = Ok m ∧
       MobileNetV3Small.forward m (Ok [1; 1; 32; 32]) = Raise channel_error ∧
       MobileNetV3Small.forward m (Ok [1; 3; 0; 32]) = Raise kernel_error.
Proof.
  destruct (MobileNetV3Small.__init__ 10 1 (2 # 10) false false None)
    as [m|e] eqn:Hm; [|vm_compute in Hm; discriminate Hm].
  exists m. split; [reflexivity|].
  destruct (forward_rejects_bad_input _ _ _ _ _ _ m 1 1 32 32 Hm) as [H1 _];
    [discriminate|].
  destruct (forward_rejects_bad_input _ _ _ _ _ _ m 1 3 0 32 Hm) as [_ H2];
    [discriminate|].
  split; [apply H1; discriminate | apply H2; [reflexivity | left; lia]].
Defined.

End NetworkMore.

(** ** Further properties of the pretrained transplant *)

Section TransplantMore.

Lemma load_state_dict_shapes model sd m :
  load_state_dict model sd = Ok m → shapes_fit sd (state_dict model).
Proof.
  unfold load_state_dict. intros H.
  destruct (decide (dom sd = dom (state_dict model))); [|discriminate].
  destruct (decide (map_Forall _ sd)) as [Hf|]; [|discriminate].
  intros k t t' Hk Hk'. specialize (Hf k t Hk). cbn beta in Hf.
  rewrite Hk' in Hf. cbn in Hf. congruence.
Qed.

Lemma load_state_dict_key_error model sd :
  dom sd ≠ dom (state_dict model) → load_state_dict model sd = Raise key_error.
Proof.
  intros Hd. unfold load_state_dict.
  destruct (decide (dom sd = dom (state_dict model))); [contradiction|].
  reflexivity.
Qed.


Lemma build_returns kwargs : ∃ a, build kwargs = Ok a.
Proof.
  unfold build.
  destruct (network_init_returns (get kwargs.(kw_num_classes) 1000)
              (get kwargs.(kw_width_mult) 1%Q) (get kwargs.(kw_dropout) (2 # 10))
              (get kwargs.(kw_reduced_tail) false) (get kwargs.(kw_dilated) false)
              kwargs.(kw_norm_layer)) as (blocks & _ & ->).
  eexists; reflexivity.
Qed.

Lemma transplant_unfold pretrained kwargs fresh tv :
  ∃ a, build kwargs = Ok a ∧
    mobilenet_v3_small pretrained kwargs fresh tv =
    if pretrained
    then if negb (get kwargs.(kw_num_classes) 1000 =? 1000)
         then load_state_dict {| arch := a; state_dict := fresh |}
                (remove_classifier tv ∪ fresh)
         else load_state_dict {| arch := a; state_dict := fresh |} tv
    else Ok {| arch := a; state_dict := fresh |}.
Proof.
  destruct (build_returns kwargs) as [a Ha]. exists a. split; [exact Ha|].
  unfold mobilenet_v3_small. unfold build in Ha. rewrite Ha. reflexivity.
Qed.

Lemma dom_update_iff (tv fresh : gmap string tensor) :
  dom (remove_classifier tv ∪ fresh) = dom fresh ↔
  ∀ k t, tv !! k = Some t → startswith_classifier k = false →
         k ∈ dom fresh.
Proof.
  split.
  - intros Hd k t Hk Hp. rewrite <- Hd, dom_union, elem_of_union. left.
    apply elem_of_dom. exists t. apply lookup_body_keep; assumption.
  - intros Hin. apply set_eq. intros k.
    rewrite dom_union, elem_of_union. split; [|auto].
    intros [Hk|Hk]; [|exact Hk]. apply elem_of_dom in Hk as [t Ht].
    unfold remove_classifier in Ht.
    apply map_lookup_filter_Some in Ht as [Ht Hp]. eapply Hin; eassumption.
Qed.

(** X17. With [pretrained=True] and a number of classes other than 1000,
    [mobilenet_v3_small] returns exactly when every source entry outside the
    classifier has a model entry of the same name and shape; a source entry
    outside the classifier whose name the model lacks makes the strict load
    raise the key error. *)
Theorem transplant_succeeds_iff kwargs fresh tv :
  get kwargs.(kw_num_classes) 1000 ≠ 1000 →
  (is_Ok (mobilenet_v3_small true kwargs fresh tv) ↔
   ∀ k t, tv !! k = Some t → startswith_classifier k = false →
          ∃ t', fresh !! k = Some t' ∧ tensor_shape t' = tensor_shape t) ∧
  ((∃ k t, tv !! k = Some t ∧ startswith_classifier k = false ∧
           fresh !! k = None) →
   mobilenet_v3_small true kwargs fresh tv = Raise key_error).
Proof.
  intros E.
  destruct (transplant_unfold true kwargs fresh tv) as (a & _ & ->).
  destruct (Z.eqb_spec (get kwargs.(kw_num_classes) 1000) 1000) as [|_];
    [contradiction|]. cbn [negb].
  split; [split|].
  - intros [m Hm] k t Hk Hp.
    pose proof (load_state_dict_inv _ _ _ Hm) as (_ & _ & Hd).
    pose proof (load_state_dict_shapes _ _ _ Hm) as Hs. cbn [state_dict] in Hd, Hs.
    assert (Hin : k ∈ dom fresh) by (eapply dom_update_iff; eassumption).
    apply elem_of_dom in Hin as [t' Ht']. exists t'. split; [exact Ht'|].
    eapply Hs; [|exact Ht'].
    apply lookup_union_Some_l, lookup_body_keep; assumption.
  - intros Hm. rewrite load_state_dict_returns; [eexists; reflexivity| |];
      cbn [state_dict].
    + apply dom_update_iff. intros k t Hk Hp.
      destruct (Hm k t Hk Hp) as (t' & Ht' & _). apply elem_of_dom. eauto.
    + intros k t t' Hk Hk'.
      apply lookup_union_Some_raw in Hk as [Hk | [_ Hk]]; [|congruence].
      unfold remove_classifier in Hk.
      apply map_lookup_filter_Some in Hk as [Hk Hp]. cbn in Hp.
      destruct (Hm k t Hk Hp) as (t'' & Ht'' & Hsh). congruence.
  - intros (k & t & Hk & Hp & Hn). apply load_state_dict_key_error.
    cbn [state_dict]. intros Hd.
    assert (Hin : k ∈ dom fresh) by (eapply dom_update_iff; eassumption).
    apply elem_of_dom in Hin as [t' Ht']. congruence.
Qed.

Lemma transplant_succeeds_iff_witness :
  let t1 := mk_tensor [2] [1%Q; 2%Q] in
  let fresh : gmap string tensor :=
    <["features.0.0.weight" := t1]> (<["classifier.3.bias" := t1]> ∅) in
  let tv : gmap string tensor :=
    <["features.9.weight" := t1]> (<["classifier.3.bias" := t1]> ∅) in
  let kwargs := mk_Kwargs (Some 10) None None None None None in
  mobilenet_v3_small true kwargs fresh tv = Raise key_error.
Proof.
  intros t1 fresh tv kwargs.
  apply (proj2 (transplant_succeeds_iff kwargs fresh tv ltac:(discriminate))).
  exists "features.9.weight"%string, t1. repeat split; reflexivity.
Defined.





End TransplantMore.

(** ** The training run *)

Section Run.

Context `{B : Backend}.

Lemma truediv_Z (a : Q) (n : Z) :
  truediv a (inject_Z n) =
  if n =? 0 then Raise ZeroDivisionError else Ok (a / inject_Z n)%Q.
Proof. unfold truediv, Qeq_bool. destruct n; reflexivity. Qed.

Lemma evaluate_loop_sums model dl l c t :
  evaluate_loop model dl l c t =
  (fold_left Qplus (batch_losses model dl) l,
   c + Zsum (batch_hits model dl), t + Zsum (batch_sizes dl)).
Proof.
  revert l c t. induction dl as [|[i tg] dl IH]; intros l c t.
  - cbn. rewrite !Z.add_0_r. reflexivity.
  - cbn [evaluate_loop]. rewrite IH.
    unfold Zsum, batch_hits, batch_sizes, batch_losses.
    cbn [map fold_right fold_left fst snd]. rewrite !Z.add_assoc. reflexivity.
Qed.

Lemma evaluate_sums model dl :
  evaluate model dl =
  let! val_loss :=
    truediv (fold_left Qplus (batch_losses model dl) 0%Q)
      (inject_Z (Z.of_nat (length dl))) in
  let! val_acc :=
    truediv (100 * inject_Z (Zsum (batch_hits model dl)))%Q
      (inject_Z (Zsum (batch_sizes dl))) in
  Ok (val_loss, val_acc).
Proof. unfold evaluate. rewrite evaluate_loop_sums. reflexivity. Qed.

Lemma Zsum_sizes_nil : Zsum (batch_sizes []) = 0.
Proof. reflexivity. Qed.

Lemma length_zero_iff (dl : list (inputs * targets)) :
  (Z.of_nat (length dl) =? 0) = true ↔ dl = [].
Proof.
  rewrite Z.eqb_eq. destruct dl; cbn [length]; split; intros; try done; lia.
Qed.

(** X20. [evaluate] raises [ZeroDivisionError] when the loader yields no batch or
    the batches hold no sample; otherwise it returns the sum of the batch
    losses divided by the number of batches (not of samples) and 100 times
    the hits divided by the number of samples; it raises nothing else. *)
Theorem evaluate_zero_division model dl :
  (dl = [] ∨ Zsum (batch_sizes dl) = 0 →
   evaluate model dl = Raise ZeroDivisionError) ∧
  (dl ≠ [] → Zsum (batch_sizes dl) ≠ 0 →
   evaluate model dl =
   Ok ((fold_left Qplus (batch_losses model dl) 0 /
        inject_Z (Z.of_nat (length dl)))%Q,
       (100 * inject_Z (Zsum (batch_hits model dl)) /
        inject_Z (Zsum (batch_sizes dl)))%Q)) ∧
  (∀ e, evaluate model dl = Raise e → e = ZeroDivisionError).
Proof.
  rewrite evaluate_sums, !truediv_Z.
  destruct (Z.of_nat (length dl) =? 0) eqn:El.
  - apply length_zero_iff in El. subst dl. cbn.
    repeat split; try done. intros e [= <-]. reflexivity.
  - assert (dl ≠ []) as Hne by (intros ->; discriminate El).
    cbn [rbind]. destruct (Z.eqb_spec (Zsum (batch_sizes dl)) 0) as [Hz|Hz];
      cbn [rbind]; repeat split; try done.
    all: first [intros e [= <-]; reflexivity | intros [?|?]; done].
Qed.

Lemma Zsum_bounds model dl :
  Forall (fun b => 0 < size0 b.2) dl →
  Forall (fun b => 0 ≤ correct (eval_call model b.1) b.2 ≤ size0 b.2) dl →
  0 ≤ Zsum (batch_hits model dl) ≤ Zsum (batch_sizes dl) ∧
  (dl ≠ [] → 0 < Zsum (batch_sizes dl)) ∧
  (Zsum (batch_hits model dl) = Zsum (batch_sizes dl) ↔
   Forall (fun b => correct (eval_call model b.1) b.2 = size0 b.2) dl).
Proof.
  induction dl as [|b dl IH]; intros Hs Hc.
  - cbn. repeat split; try lia; try done.
  - inversion Hs as [|? ? Hb Hs']; subst. inversion Hc as [|? ? Hb' Hc']; subst.
    destruct (IH Hs' Hc') as (IH1 & IH2 & IH3).
    change (Zsum (batch_hits model (b :: dl)))
      with (correct (eval_call model b.1) b.2 + Zsum (batch_hits model dl)).
    change (Zsum (batch_sizes (b :: dl)))
      with (size0 b.2 + Zsum (batch_sizes dl)).
    split; [lia|]. split; [lia|]. split.
    + intros E. apply Forall_cons. split; [lia|]. apply IH3. lia.
    + intros F. apply Forall_cons in F as [F1 F2]. apply IH3 in F2. lia.
Qed.

Lemma percent_range (c t : Z) :
  0 ≤ c ≤ t → 0 < t →
  (0 <= 100 * inject_Z c / inject_Z t)%Q ∧
  (100 * inject_Z c / inject_Z t <= 100)%Q ∧
  ((100 * inject_Z c / inject_Z t == 100)%Q ↔ c = t).
Proof.
  intros Hc Ht.
  assert (Ht' : (0 < inject_Z t)%Q).
  { change 0%Q with (inject_Z 0). rewrite <- Zlt_Qlt. exact Ht. }
  assert (Hc0 : (0 <= inject_Z c)%Q).
  { change 0%Q with (inject_Z 0). rewrite <- Zle_Qle. lia. }
  assert (Hct : (inject_Z c <= inject_Z t)%Q).
  { rewrite <- Zle_Qle. lia. }
  split; [|split].
  - apply Qle_shift_div_l; [exact Ht'|]. lra.
  - apply Qle_shift_div_r; [exact Ht'|]. lra.
  - split.
    + intros E.
      assert (E' : (100 * inject_Z c ==
                    (100 * inject_Z c / inject_Z t) * inject_Z t)%Q)
        by (field; lra).
      rewrite E in E'.
      assert (E'' : (inject_Z c == inject_Z t)%Q) by lra.
      unfold Qeq in E''. cbn in E''. lia.
    + intros ->. field. lra.
Qed.

(** X21. On a loader with at least one batch, every batch non-empty and no batch
    with more hits than samples, [evaluate] returns an accuracy between 0 and
    100, which is 100 exactly when every batch is predicted entirely right. *)
Theorem evaluate_accuracy_range model dl :
  dl ≠ [] →
  Forall (fun b => 0 < size0 b.2) dl →
  Forall (fun b => 0 ≤ correct (eval_call model b.1) b.2 ≤ size0 b.2) dl →
  ∃ loss acc, evaluate model dl = Ok (loss, acc) ∧
    (0 <= acc)%Q ∧ (acc <= 100)%Q ∧
    ((acc == 100)%Q ↔
     Forall (fun b => correct (eval_call model b.1) b.2 = size0 b.2) dl).
Proof.
  intros Hne Hs Hc.
  destruct (Zsum_bounds model dl Hs Hc) as (Hb & Hp & Hall).
  specialize (Hp Hne).
  rewrite evaluate_sums, !truediv_Z.
  destruct (Z.of_nat (length dl) =? 0) eqn:El;
    [apply length_zero_iff in El; contradiction|].
  destruct (Z.eqb_spec (Zsum (batch_sizes dl)) 0) as [Hz|Hz]; [lia|].
  cbn [rbind]. eexists _, _. split; [reflexivity|].
  destruct (percent_range _ _ Hb Hp) as (H0 & H1 & H2).
  split; [exact H0|]. split; [exact H1|]. rewrite H2. exact Hall.
Qed.

Lemma Zsum_Permutation (l l' : list Z) : l ≡ₚ l' → Zsum l = Zsum l'.
Proof.
  unfold Zsum.
  induction 1 as [|x l l' _ IH|x y l|l l' l'' _ IH1 _ IH2]; cbn; lia.
Qed.

Lemma evaluate_accuracy model dl :
  accuracy (evaluate model dl) =
  if Zsum (batch_sizes dl) =? 0 then Raise ZeroDivisionError
  else Ok (100 * inject_Z (Zsum (batch_hits model dl)) /
           inject_Z (Zsum (batch_sizes dl)))%Q.
Proof.
  rewrite evaluate_sums, !truediv_Z.
  destruct (Z.of_nat (length dl) =? 0) eqn:El.
  - apply length_zero_iff in El. subst dl. reflexivity.
  - cbn [rbind]. destruct (Zsum (batch_sizes dl) =? 0); reflexivity.
Qed.

(** X22. The accuracy [evaluate] returns, and whether it raises, do not depend on
    the order in which the loader yields its batches. *)
Theorem evaluate_accuracy_order_independent model dl dl' :
  dl ≡ₚ dl' → accuracy (evaluate model dl) = accuracy (evaluate model dl').
Proof.
  intros Hp. rewrite !evaluate_accuracy.
  assert (Hs : Zsum (batch_sizes dl) = Zsum (batch_sizes dl')).
  { apply Zsum_Permutation. unfold batch_sizes. apply Permutation_map, Hp. }
  assert (Hh : Zsum (batch_hits model dl) = Zsum (batch_hits model dl')).
  { apply Zsum_Permutation. unfold batch_hits. apply Permutation_map, Hp. }
  rewrite Hs, Hh. reflexivity.
Qed.


Lemma train_batches_cons config a epoch i tg batches idx sd opt l c t tl :
  train_batches config a epoch ((i, tg) :: batches) idx sd opt l c t tl =
  let r := sgd_step {| arch := a; state_dict := sd |} opt i tg in
  let l' := (l + criterion r.2 tg)%Q in
  let t' := t + size0 tg in
  let c' := c + correct r.2 tg in
  if Config.log_interval config =? 0 then Raise ZeroDivisionError
  else if idx mod Config.log_interval config =? 0
  then
    if t' =? 0 then Raise ZeroDivisionError
    else train_batches config a epoch batches (idx + 1) r.1.1 r.1.2 l' c' t'
           (tl ++ [mk_train_entry epoch idx (l' / inject_Z (idx + 1))%Q
                     (100 * inject_Z c' / inject_Z t')%Q (lr r.1.2)])
  else train_batches config a epoch batches (idx + 1) r.1.1 r.1.2 l' c' t' tl.
Proof.
  cbn [train_batches].
  destruct (sgd_step {| arch := a; state_dict := sd |} opt i tg)
    as [[sd1 opt1] o].
  cbn [fst snd]. unfold mod_.
  destruct (Config.log_interval config =? 0); [reflexivity|]. cbn [rbind].
  destruct (idx mod Config.log_interval config =? 0); [|reflexivity].
  rewrite truediv_Z. destruct (t + size0 tg =? 0); reflexivity.
Qed.


Lemma train_batches_keeps (P : gmap string tensor → Prop) config a epoch
    batches :
  (∀ sd opt i tg,
     P sd → P (sgd_step {| arch := a; state_dict := sd |} opt i tg).1.1) →
  ∀ idx sd opt l c t tl sd' opt' tl',
    P sd →
    train_batches config a epoch batches idx sd opt l c t tl =
      Ok (sd', opt', tl') →
    P sd'.
Proof.
  intros HP.
  induction batches as [|[i tg] batches IH];
    intros idx sd opt l c t tl sd' opt' tl' Hsd.
  - intros [= <- _ _]. exact Hsd.
  - rewrite train_batches_cons. cbn zeta.
    repeat (match goal with |- context [if ?b then _ else _] => destruct b end);
      try discriminate; apply IH, HP, Hsd.
Qed.


Lemma train_batches_log config a epoch batches :
  (∀ o tg, 0 ≤ correct o tg ≤ size0 tg) →
  ∀ idx sd opt l c t tl sd' opt' tl',
    0 ≤ c ≤ t →
    train_batches config a epoch batches idx sd opt l c t tl =
      Ok (sd', opt', tl') →
    ∃ es, tl' = tl ++ es ∧
      map (fun e => (te_epoch e, te_batch e)) es =
      map (fun i => (epoch, i))
        (filter (fun i => i mod Config.log_interval config = 0)
           (seqZ idx (Z.of_nat (length batches)))) ∧
      Forall (fun e => (0 <= te_acc e)%Q ∧ (te_acc e <= 100)%Q) es.
Proof.
  intros Hb.
  induction batches as [|[i tg] batches IH];
    intros idx sd opt l c t tl sd' opt' tl' Hc.
  - intros [= _ _ <-]. exists []. rewrite app_nil_r. repeat split. constructor.
  - rewrite train_batches_cons. cbn zeta.
    set (r := sgd_step {| arch := a; state_dict := sd |} opt i tg).
    pose proof (Hb r.2 tg) as Hr.
    rewrite seqZ_cons by (cbn [length]; lia).
    replace (Z.pred (Z.of_nat (length ((i, tg) :: batches))))
      with (Z.of_nat (length batches)) by (cbn [length]; lia).
    rewrite filter_cons.
    destruct (Config.log_interval config =? 0); [discriminate|].
    destruct (Z.eqb_spec (idx mod Config.log_interval config) 0) as [Hm|Hm].
    + destruct (Z.eqb_spec (t + size0 tg) 0) as [|Ht]; [discriminate|].
      intros H. apply IH in H as (es & -> & Hmap & Hacc); [|lia].
      eexists (_ :: es). rewrite <- app_assoc. split; [reflexivity|].
      destruct (decide (idx mod Config.log_interval config = 0));
        [|contradiction].
      split.
      * cbn [map te_epoch te_batch]. f_equal. exact Hmap.
      * constructor; [|exact Hacc]. cbn [te_acc].
        destruct (percent_range (c + correct r.2 tg) (t + size0 tg))
          as (H0 & H1 & _); [lia|lia|]. split; assumption.
    + intros H. apply IH in H as (es & -> & Hmap & Hacc); [|lia].
      exists es. split; [reflexivity|].
      destruct (decide (idx mod Config.log_interval config = 0));
        [contradiction|].
      split; assumption.
Qed.

Lemma train_epochs_cons config a epoch epochs sd opt best tl vl ckpt :
  train_epochs config a (epoch :: epochs) sd opt best tl vl ckpt =
  let! trained :=
    train_batches config a (Z.of_nat epoch) (train_loader config epoch) 0
      sd opt 0%Q 0 0 tl in
  let! validated :=
    evaluate {| arch := a; state_dict := trained.1.1 |} (test_loader config) in
  let improved := Py.lt best validated.2 in
  train_epochs config a epochs trained.1.1 (scheduler_step trained.1.2)
    (if improved then validated.2 else best) trained.2
    (vl ++ [mk_val_entry (Z.of_nat epoch) validated.1 validated.2])
    (if improved then Some trained.1.1 else ckpt).
Proof.
  cbn [train_epochs].
  destruct (train_batches _ _ _ _ _ _ _ _ _ _ _) as [[[sd1 opt1] tl1]|e];
    [|reflexivity].
  cbn [rbind fst snd].
  destruct (evaluate _ _) as [[vloss vacc]|e]; [|reflexivity].
  cbn [rbind fst snd]. destruct (Py.lt best vacc); reflexivity.
Qed.



Lemma train_epochs_inv (P : gmap string tensor → Prop) config a epochs :
  (∀ sd opt i tg,
     P sd → P (sgd_step {| arch := a; state_dict := sd |} opt i tg).1.1) →
  ∀ sd opt best tl vl ckpt tl' vl' best' ckpt',
    P sd →
    train_epochs config a epochs sd opt best tl vl ckpt =
      Ok (tl', vl', best', ckpt') →
    ∃ vs, vl' = vl ++ vs ∧
      map ve_epoch vs = map Z.of_nat epochs ∧
      (best <= best')%Q ∧
      Forall (fun v => (ve_acc v <= best')%Q) vs ∧
      ((best' = best ∧ ckpt' = ckpt) ∨
       (∃ v sd', v ∈ vs ∧ ve_acc v = best' ∧ (best < best')%Q ∧
                 ckpt' = Some sd' ∧ P sd' ∧
                 evaluate {| arch := a; state_dict := sd' |}
                   (test_loader config) = Ok (ve_loss v, best'))).
Proof.
  intros HP.
  induction epochs as [|epoch epochs IH];
    intros sd opt best tl vl ckpt tl' vl' best' ckpt' Hsd.
  - intros [= _ <- <- <-]. exists []. rewrite app_nil_r.
    split; [reflexivity|]. split; [reflexivity|]. split; [apply Qle_refl|].
    split; [constructor|]. left. split; reflexivity.
  - rewrite train_epochs_cons.
    destruct (train_batches _ _ _ _ _ _ _ _ _ _ _)
      as [[[sd1 opt1] tl1]|e] eqn:Et; [|discriminate].
    cbn [rbind fst snd].
    destruct (evaluate _ _) as [[vloss vacc]|e] eqn:Ev; [|discriminate].
    cbn [rbind fst snd]. cbn zeta.
    assert (Hsd1 : P sd1)
      by (eapply (train_batches_keeps P); [exact HP|exact Hsd|exact Et]).
    intros H. apply IH in H as (vs & -> & Hep & Hle & Hall & Hck);
      [|exact Hsd1].
    exists (mk_val_entry (Z.of_nat epoch) vloss vacc :: vs).
    rewrite <- app_assoc. split; [reflexivity|].
    split; [cbn [map ve_epoch]; f_equal; exact Hep|].
    destruct (Py.lt best vacc) eqn:Elt.
    + apply lt_iff in Elt.
      split; [apply Qlt_le_weak; eapply Qlt_le_trans; eassumption|].
      split; [constructor; [exact Hle|exact Hall]|].
      right. destruct Hck as [[-> ->] | (v & sd' & Hv & Hacc & Hlt & -> & Hp & He)].
      * exists (mk_val_entry (Z.of_nat epoch) vloss vacc), sd1.
        split; [apply elem_of_cons; left; reflexivity|].
        repeat split; try assumption; try reflexivity.
      * exists v, sd'. split; [apply elem_of_cons; right; exact Hv|].
        repeat split; try assumption. eapply Qlt_trans; eassumption.
    + assert (Hge : (vacc <= best)%Q).
      { apply Qnot_lt_le. intros Hlt. apply lt_iff in Hlt. congruence. }
      split; [exact Hle|].
      split; [constructor; [cbn [ve_acc]; eapply Qle_trans; eassumption
                           |exact Hall]|].
      destruct Hck as [[-> ->] | (v & sd' & Hv & Hacc & Hlt & -> & Hp & He)].
      * left. split; reflexivity.
      * right. exists v, sd'. split; [apply elem_of_cons; right; exact Hv|].
        repeat split; assumption.
Qed.




Lemma train_epochs_log config a epochs :
  (∀ o tg, 0 ≤ correct o tg ≤ size0 tg) →
  ∀ sd opt best tl vl ckpt tl' vl' best' ckpt',
    train_epochs config a epochs sd opt best tl vl ckpt =
      Ok (tl', vl', best', ckpt') →
    ∃ es, tl' = tl ++ es ∧
      map (fun e => (te_epoch e, te_batch e)) es =
      flat_map (fun epoch =>
        map (fun i => (Z.of_nat epoch, i))
          (filter (fun i => i mod Config.log_interval config = 0)
             (seqZ 0 (Z.of_nat (length (train_loader config epoch))))))
        epochs ∧
      Forall (fun e => (0 <= te_acc e)%Q ∧ (te_acc e <= 100)%Q) es.
Proof.
  intros Hb.
  induction epochs as [|epoch epochs IH];
    intros sd opt best tl vl ckpt tl' vl' best' ckpt'.
  - intros [= <- _ _ _]. exists []. rewrite app_nil_r. repeat split.
    constructor.
  - rewrite train_epochs_cons.
    destruct (train_batches _ _ _ _ _ _ _ _ _ _ _)
      as [[[sd1 opt1] tl1]|e] eqn:Et; [|discriminate].
    cbn [rbind fst snd].
    destruct (evaluate _ _) as [[vloss vacc]|e] eqn:Ev; [|discriminate].
    cbn [rbind fst snd]. cbn zeta.
    apply train_batches_log in Et as (es1 & -> & Hm1 & Ha1);
      [|exact Hb|lia].
    intros H. apply IH in H as (es & -> & Hm & Ha).
    exists (es1 ++ es). rewrite <- app_assoc. split; [reflexivity|].
    split.
    + rewrite map_app. cbn [flat_map]. rewrite Hm1, Hm. reflexivity.
    + apply Forall_app. split; assumption.
Qed.


Lemma train_unfold config fresh ckpt :
  ∃ a,
    MobileNetV3Small.__init__ (Config.num_classes config) 1%Q (2 # 10)
      false false None = Ok a ∧
    train config fresh ckpt =
    train_epochs config a (seq 0 (Z.to_nat (Config.epochs config))) fresh
      (SGD {| arch := a; state_dict := fresh |}
         (Config.learning_rate config) (Config.weight_decay config)
         (Config.epochs config)) 0%Q [] [] ckpt.
Proof.
  destruct (network_init_returns (Config.num_classes config) 1%Q (2 # 10)
              false false None) as (blocks & _ & Ha).
  eexists. split; [exact Ha|].
  unfold train, mobilenet_v3_small. cbn [get kw_num_classes kw_width_mult
    kw_dropout kw_reduced_tail kw_dilated kw_norm_layer].
  rewrite Ha. reflexivity.
Qed.

Lemma same_layout_trans (s1 s2 s3 : gmap string tensor) :
  same_layout s1 s2 → same_layout s2 s3 → same_layout s1 s3.
Proof.
  intros [Hd1 Hs1] [Hd2 Hs2]. split; [congruence|].
  intros k t t' Hk Hk'.
  assert (Hin : k ∈ dom s2) by (rewrite <- Hd1; apply elem_of_dom; eauto).
  apply elem_of_dom in Hin as [t2 Ht2].
  rewrite (Hs2 k t2 t' Ht2 Hk'). exact (Hs1 k t t2 Hk Ht2).
Qed.

Lemma same_layout_loads a (fresh' fresh sd : gmap string tensor) :
  same_layout fresh' fresh → same_layout sd fresh →
  load_state_dict {| arch := a; state_dict := fresh' |} sd =
  Ok {| arch := a; state_dict := sd |}.
Proof.
  intros [Hd' Hs'] [Hd Hs].
  apply (load_state_dict_returns {| arch := a; state_dict := fresh' |} sd);
    cbn [state_dict].
  - congruence.
  - intros k t t' Hk Hk'.
    assert (Hin : k ∈ dom fresh) by (rewrite <- Hd; apply elem_of_dom; eauto).
    apply elem_of_dom in Hin as [t0 Ht0].
    rewrite <- (Hs k t t0 Hk Ht0). symmetry. exact (Hs' k t' t0 Hk' Ht0).
Qed.

(** X23. When [train] returns, its validation log has one entry per epoch, in
    order, and [best_acc] is non-negative, bounds every logged validation
    accuracy, and is either the initial 0 or one of the logged accuracies. *)
Theorem train_best_acc config fresh ckpt tl vl best ckpt' :
  train config fresh ckpt = Ok (tl, vl, best, ckpt') →
  map ve_epoch vl = map Z.of_nat (seq 0 (Z.to_nat (Config.epochs config))) ∧
  (0 <= best)%Q ∧
  Forall (fun v => (ve_acc v <= best)%Q) vl ∧
  (best = 0%Q ∨ ∃ v, v ∈ vl ∧ ve_acc v = best).
Proof.
  destruct (train_unfold config fresh ckpt) as (a & _ & ->). intros H.
  apply (train_epochs_inv (fun _ => True)) in H
    as (vs & -> & Hep & Hle & Hall & Hck); [|auto|exact I].
  cbn [app]. split; [exact Hep|]. split; [exact Hle|]. split; [exact Hall|].
  destruct Hck as [[-> _] | (v & sd' & Hv & Hacc & _)].
  - left. reflexivity.
  - right. exists v. split; assumption.
Qed.

(** X24. When [train] returns: if no validation accuracy was positive, nothing was
    saved ([best_model.pth] is as before) and [best_acc] is 0; if one was,
    the file holds a state_dict whose own validation accuracy, on the model
    [train] builds, is [best_acc]. *)
Theorem train_checkpoint config fresh ckpt tl vl best ckpt' :
  train config fresh ckpt = Ok (tl, vl, best, ckpt') →
  (Forall (fun v => (ve_acc v <= 0)%Q) vl → best = 0%Q ∧ ckpt' = ckpt) ∧
  (Exists (fun v => (0 < ve_acc v)%Q) vl →
   ∃ a sd v,
     MobileNetV3Small.__init__ (Config.num_classes config) 1%Q (2 # 10)
       false false None = Ok a ∧
     ckpt' = Some sd ∧ v ∈ vl ∧ ve_acc v = best ∧ (0 < best)%Q ∧
     evaluate {| arch := a; state_dict := sd |} (test_loader config) =
       Ok (ve_loss v, best)).
Proof.
  destruct (train_unfold config fresh ckpt) as (a & Ha & ->). intros H.
  apply (train_epochs_inv (fun _ => True)) in H
    as (vs & -> & Hep & Hle & Hall & Hck); [|auto|exact I].
  cbn [app]. split.
  - intros Hz. destruct Hck as [[-> ->] | (v & sd' & Hv & Hacc & Hlt & _)].
    + split; reflexivity.
    + exfalso. rewrite Forall_forall in Hz. specialize (Hz v Hv).
      rewrite Hacc in Hz. apply (Qlt_irrefl 0%Q).
      eapply Qlt_le_trans; eassumption.
  - intros Hex. destruct Hck as [[-> ->] | (v & sd' & Hv & Hacc & Hlt & -> & _ & He)].
    + exfalso. apply Exists_exists in Hex as (v & Hv & Hpos).
      rewrite Forall_forall in Hall. specialize (Hall v Hv).
      apply (Qlt_irrefl 0%Q). eapply Qlt_le_trans; eassumption.
    + exists a, sd', v. repeat split; assumption.
Qed.

(** X25. When an optimisation step keeps the names and shapes of the state_dict,
    and [train] returns with a positive validation accuracy, [test] on the
    checkpoint it saved returns, and the test accuracy is [best_acc]: both
    read the same loader. *)
Theorem train_then_test config fresh fresh' ckpt tl vl best ckpt' :
  (∀ model opt i tg,
     same_layout (sgd_step model opt i tg).1.1 (state_dict model)) →
  same_layout fresh' fresh →
  train config fresh ckpt = Ok (tl, vl, best, ckpt') →
  Exists (fun v => (0 < ve_acc v)%Q) vl →
  ∃ sd v, ckpt' = Some sd ∧ v ∈ vl ∧ ve_acc v = best ∧
          test config fresh' sd = Ok (ve_loss v, best).
Proof.
  intros Hsgd Hf.
  destruct (train_unfold config fresh ckpt) as (a & Ha & ->). intros H Hex.
  apply (train_epochs_inv (fun sd => same_layout sd fresh)) in H
    as (vs & -> & Hep & Hle & Hall & Hck).
  - cbn [app] in *.
    destruct Hck as [[-> ->] | (v & sd' & Hv & Hacc & Hlt & -> & Hl & He)].
    + exfalso. apply Exists_exists in Hex as (v & Hv & Hpos).
      rewrite Forall_forall in Hall. specialize (Hall v Hv).
      apply (Qlt_irrefl 0%Q). eapply Qlt_le_trans; eassumption.
    + exists sd', v. repeat split; try assumption.
      unfold test. rewrite Ha. cbn [rbind].
      rewrite (same_layout_loads a fresh' fresh sd' Hf Hl). exact He.
  - intros sd opt i tg Hl. eapply same_layout_trans; [|exact Hl].
    exact (Hsgd {| arch := a; state_dict := sd |} opt i tg).
  - split; [reflexivity|]. intros k t t' Hk Hk'. congruence.
Qed.



(** X28. When [train] returns, the training log holds, epoch by epoch and in
    order, exactly the batch indices divisible by [log_interval] (in Python's
    sense of [%], for negative intervals too), and every logged training
    accuracy is between 0 and 100 when no batch has more hits than samples. *)
Theorem train_log_entries config fresh ckpt tl vl best ckpt' :
  (∀ o tg, 0 ≤ correct o tg ≤ size0 tg) →
  train config fresh ckpt = Ok (tl, vl, best, ckpt') →
  map (fun e => (te_epoch e, te_batch e)) tl =
  flat_map (fun epoch =>
    map (fun i => (Z.of_nat epoch, i))
      (filter (fun i => i mod Config.log_interval config = 0)
         (seqZ 0 (Z.of_nat (length (train_loader config epoch))))))
    (seq 0 (Z.to_nat (Config.epochs config))) ∧
  Forall (fun e => (0 <= te_acc e)%Q ∧ (te_acc e <= 100)%Q) tl.
Proof.
  intros Hb.
  destruct (train_unfold config fresh ckpt) as (a & Ha & ->). intros H.
  apply (train_epochs_log config a _ Hb) in H as (es & -> & Hm & Hacc).
  cbn [app]. split; assumption.
Qed.

Lemma shape_lookup_eq (fresh fresh' : gmap string tensor) k :
  same_layout fresh' fresh →
  tensor_shape <$> fresh' !! k = tensor_shape <$> fresh !! k.
Proof.
  intros [Hd Hs].
  destruct (fresh' !! k) as [t'|] eqn:E'; destruct (fresh !! k) as [t|] eqn:E;
    cbn.
  - f_equal. symmetry. exact (Hs k t' t E' E).
  - exfalso. apply not_elem_of_dom in E. rewrite <- Hd in E.
    apply E, elem_of_dom. eauto.
  - exfalso. apply not_elem_of_dom in E'. rewrite Hd in E'.
    apply E', elem_of_dom. eauto.
  - reflexivity.
Qed.

(** X29. [test] does not depend on the random initialisation of the model it
    builds: two initialisations with the same names and shapes give the same
    result, or the same exception, on every checkpoint. *)
Theorem test_ignores_initialisation config fresh fresh' best_model :
  same_layout fresh' fresh →
  test config fresh' best_model = test config fresh best_model.
Proof.
  intros Hl. unfold test.
  destruct (MobileNetV3Small.__init__ _ _ _ _ _ _) as [a|e]; [|reflexivity].
  cbn [rbind]. f_equal. unfold load_state_dict. cbn [state_dict arch].
  destruct Hl as [Hd Hs].
  destruct (decide (dom best_model = dom fresh')) as [E'|E'];
    destruct (decide (dom best_model = dom fresh)) as [E|E];
    try congruence.
  assert (Hiff :
    map_Forall (fun k t => tensor_shape <$> fresh' !! k = Some (tensor_shape t))
      best_model ↔
    map_Forall (fun k t => tensor_shape <$> fresh !! k = Some (tensor_shape t))
      best_model).
  { split; intros Hf k t Hk; specialize (Hf k t Hk); cbn beta in *;
      [rewrite <- (shape_lookup_eq fresh fresh' k (conj Hd Hs))
      |rewrite (shape_lookup_eq fresh fresh' k (conj Hd Hs))]; exact Hf. }
  destruct (decide (map_Forall _ best_model)) as [F'|F'];
    destruct (decide (map_Forall _ best_model)) as [F|F];
    try reflexivity; exfalso; tauto.
Qed.

End Run.

(** The run on [identity_backend]. *)

Lemma evaluate_zero_division_witness :
  let model :=
    {| arch := MobileNetV3Small.mk [] (nn.mkAdaptiveAvgPool2d 1) [];
       state_dict := ∅ |} in
  @evaluate identity_backend model [] = Raise ZeroDivisionError.
Proof.
  intros model.
  apply (proj1 (@evaluate_zero_division identity_backend model [])).
  left. reflexivity.
Defined.

Lemma evaluate_accuracy_range_witness :
  let model :=
    {| arch := MobileNetV3Small.mk [] (nn.mkAdaptiveAvgPool2d 1) [];
       state_dict := ∅ |} in
  ∃ loss acc,
    @evaluate identity_backend model [(0, 0); (1, 2)] = Ok (loss, acc) ∧
    (0 <= acc)%Q ∧ (acc <= 100)%Q.
Proof.
  intros model.
  destruct (@evaluate_accuracy_range identity_backend model [(0, 0); (1, 2)])
    as (loss & acc & He & H0 & H1 & _).
  - discriminate.
  - repeat constructor.
  - repeat constructor; cbn; lia.
  - exists loss, acc. auto.
Defined.

Lemma evaluate_accuracy_order_independent_witness :
  let model :=
    {| arch := MobileNetV3Small.mk [] (nn.mkAdaptiveAvgPool2d 1) [];
       state_dict := ∅ |} in
  accuracy (@evaluate identity_backend model [(0, 0); (1, 2)]) =
  accuracy (@evaluate identity_backend model [(1, 2); (0, 0)]).
Proof.
  intros model.
  apply (@evaluate_accuracy_order_independent identity_backend).
  apply perm_swap.
Defined.

Lemma train_best_acc_witness :
  ∃ tl vl best ckpt',
    @train identity_backend default_config ∅ None = Ok (tl, vl, best, ckpt') ∧
    (0 <= best)%Q ∧ Forall (fun v => (ve_acc v <= best)%Q) vl.
Proof.
  destruct (@train identity_backend default_config ∅ None)
    as [[[[tl vl] best] ckpt']|e] eqn:E; [|vm_compute in E; discriminate E].
  exists tl, vl, best, ckpt'. split; [reflexivity|].
  destruct (@train_best_acc identity_backend default_config ∅ None
              tl vl best ckpt' E) as (_ & H0 & Hall & _).
  split; assumption.
Defined.

Lemma train_checkpoint_witness :
  ∃ tl vl best sd,
    @train identity_backend default_config ∅ None =
      Ok (tl, vl, best, Some sd) ∧ (0 < best)%Q.
Proof.
  destruct (@train identity_backend default_config ∅ None)
    as [[[[tl vl] best] ckpt']|e] eqn:E; [|vm_compute in E; discriminate E].
  pose proof E as E'. vm_compute in E'. injection E' as Etl Evl Ebest Eck.
  destruct (proj2 (@train_checkpoint identity_backend default_config ∅ None
                     tl vl best ckpt' E))
    as (a & sd & v & _ & -> & _ & _ & Hpos & _).
  - rewrite <- Evl. apply Exists_cons_hd. reflexivity.
  - exists tl, vl, best, sd. split; [reflexivity|exact Hpos].
Defined.

Lemma train_then_test_witness :
  ∃ tl vl best sd loss,
    @train identity_backend default_config ∅ None =
      Ok (tl, vl, best, Some sd) ∧
    @test identity_backend default_config ∅ sd = Ok (loss, best).
Proof.
  destruct (@train identity_backend default_config ∅ None)
    as [[[[tl vl] best] ckpt']|e] eqn:E; [|vm_compute in E; discriminate E].
  pose proof E as E'. vm_compute in E'. injection E' as Etl Evl Ebest Eck.
  destruct (@train_then_test identity_backend default_config ∅ ∅ None
              tl vl best ckpt')
    as (sd & v & -> & _ & _ & Ht).
  - intros model opt i tg. split; [reflexivity|].
    intros k t t' Hk Hk'. cbn in Hk. congruence.
  - split; [reflexivity|]. intros k t t' Hk Hk'. congruence.
  - exact E.
  - rewrite <- Evl. apply Exists_cons_hd. reflexivity.
  - exists tl, vl, best, sd, (ve_loss v). split; [reflexivity|exact Ht].
Defined.



Lemma train_log_entries_witness :
  ∃ tl vl best ckpt',
    @train identity_backend default_config ∅ None = Ok (tl, vl, best, ckpt') ∧
    map (fun e => (te_epoch e, te_batch e)) tl = [(0, 0); (1, 0)].
Proof.
  destruct (@train identity_backend default_config ∅ None)
    as [[[[tl vl] best] ckpt']|e] eqn:E; [|vm_compute in E; discriminate E].
  exists tl, vl, best, ckpt'. split; [reflexivity|].
  refine (proj1 (@train_log_entries identity_backend default_config ∅ None
                   tl vl best ckpt' _ E)).
  intros o tg. cbn. destruct (o =? tg); lia.
Defined.

Lemma test_ignores_initialisation_witness :
  let fresh : gmap string tensor :=
    <["classifier.3.bias" := mk_tensor [2] [0%Q; 0%Q]]> ∅ in
  let fresh' : gmap string tensor :=
    <["classifier.3.bias" := mk_tensor [2] [1%Q; 2%Q]]> ∅ in
  let best_model : gmap string tensor :=
    <["classifier.3.bias" := mk_tensor [2] [3%Q; 4%Q]]> ∅ in
  @test identity_backend default_config fresh' best_model =
  @test identity_backend default_config fresh best_model.
Proof.
  intros fresh fresh' best_model.
  apply (@test_ignores_initialisation identity_backend).
  split.
  - unfold fresh, fresh'. rewrite !dom_insert_L. reflexivity.
  - intros k t t' Hk Hk'. unfold fresh, fresh' in *.
    apply lookup_insert_Some in Hk as [[_ <-]|[_ Hk]];
      [|rewrite lookup_empty in Hk; discriminate Hk].
    apply lookup_insert_Some in Hk' as [[_ <-]|[_ Hk']];
      [|rewrite lookup_empty in Hk'; discriminate Hk'].
    reflexivity.
Defined.
